(** * Backpropagation on one neuron: the notebook [DL_AA_Section3.ipynb]

    The notebook trains a single linear unit [output = weight * x + bias]
    on one sample by gradient descent on the squared error.  Its code cells
    are embedded here once, over an abstract scalar type, and read at two
    instances:

    - [float], Rocq's primitive binary64 numbers, with Python's rules for
      the operators the cells use ([*], [+], [-] never raise; [** 2]
      ends in the C library's [pow], a parameter, and raises
      [OverflowError] when that returns an infinity);
    - [R], exact real arithmetic, for the statements about limits.  *)

From Stdlib Require Import ZArith QArith Qabs Reals Lra Lia List Bool Floats.
Import ListNotations.

Set Warnings "-inexact-float".

Set Implicit Arguments.

(** ** Exceptions *)

Inductive exn : Type :=
| OverflowError.

Inductive result (A : Type) : Type :=
| Ok (a : A)
| Raise (e : exn).

Arguments Ok {A} a.
Arguments Raise {A} e.

Definition bind {A B : Type} (r : result A) (k : A -> result B) : result B :=
  match r with
  | Ok a => k a
  | Raise e => Raise e
  end.

Notation "x <- r ;; k" := (bind r (fun x => k))
  (at level 61, r at next level, right associativity).

Definition is_ok {A : Type} (r : result A) : bool :=
  match r with
  | Ok _ => true
  | Raise _ => false
  end.

(** ** The scalar interface

    What the cells ask of their numbers.  [lit_two] is the integer literal
    [2] after Python has converted it to the type of its float operand;
    [lit_x], [lit_target] and [lit_learning_rate] are the literals [3.0],
    [6.0] and [0.01]. *)

Class Scalar (T : Type) : Type := {
  add : T -> T -> T;
  sub : T -> T -> T;
  mul : T -> T -> T;
  pow2 : T -> result T;
  lit_two : T;
  lit_x : T;
  lit_target : T;
  lit_learning_rate : T
}.

Declare Scope scalar_scope.
Delimit Scope scalar_scope with sc.
Infix "+" := add : scalar_scope.
Infix "-" := sub : scalar_scope.
Infix "*" := mul : scalar_scope.

(** ** The notebook's variables

    A notebook kernel keeps every name a cell has assigned.  [Env] holds the
    names the code cells assign, in the order of their first assignment. *)

Record Env (T : Type) : Type := mkEnv {
  weight : T;
  bias : T;
  x : T;
  target : T;
  output : T;
  loss : T;
  error : T;
  grad_weight : T;
  grad_bias : T;
  learning_rate : T;
  new_output : T;
  new_loss : T;
  losses : list T;
  i : nat
}.

Definition set_weight {T : Type} (v : T) (e : Env T) : Env T :=
  mkEnv v (bias e) (x e) (target e) (output e) (loss e) (error e)
        (grad_weight e) (grad_bias e) (learning_rate e) (new_output e)
        (new_loss e) (losses e) (i e).

Definition set_bias {T : Type} (v : T) (e : Env T) : Env T :=
  mkEnv (weight e) v (x e) (target e) (output e) (loss e) (error e)
        (grad_weight e) (grad_bias e) (learning_rate e) (new_output e)
        (new_loss e) (losses e) (i e).

Definition set_x {T : Type} (v : T) (e : Env T) : Env T :=
  mkEnv (weight e) (bias e) v (target e) (output e) (loss e) (error e)
        (grad_weight e) (grad_bias e) (learning_rate e) (new_output e)
        (new_loss e) (losses e) (i e).

Definition set_target {T : Type} (v : T) (e : Env T) : Env T :=
  mkEnv (weight e) (bias e) (x e) v (output e) (loss e) (error e)
        (grad_weight e) (grad_bias e) (learning_rate e) (new_output e)
        (new_loss e) (losses e) (i e).

Definition set_output {T : Type} (v : T) (e : Env T) : Env T :=
  mkEnv (weight e) (bias e) (x e) (target e) v (loss e) (error e)
        (grad_weight e) (grad_bias e) (learning_rate e) (new_output e)
        (new_loss e) (losses e) (i e).

Definition set_loss {T : Type} (v : T) (e : Env T) : Env T :=
  mkEnv (weight e) (bias e) (x e) (target e) (output e) v (error e)
        (grad_weight e) (grad_bias e) (learning_rate e) (new_output e)
        (new_loss e) (losses e) (i e).

Definition set_error {T : Type} (v : T) (e : Env T) : Env T :=
  mkEnv (weight e) (bias e) (x e) (target e) (output e) (loss e) v
        (grad_weight e) (grad_bias e) (learning_rate e) (new_output e)
        (new_loss e) (losses e) (i e).

Definition set_grad_weight {T : Type} (v : T) (e : Env T) : Env T :=
  mkEnv (weight e) (bias e) (x e) (target e) (output e) (loss e) (error e)
        v (grad_bias e) (learning_rate e) (new_output e)
        (new_loss e) (losses e) (i e).

Definition set_grad_bias {T : Type} (v : T) (e : Env T) : Env T :=
  mkEnv (weight e) (bias e) (x e) (target e) (output e) (loss e) (error e)
        (grad_weight e) v (learning_rate e) (new_output e)
        (new_loss e) (losses e) (i e).

Definition set_learning_rate {T : Type} (v : T) (e : Env T) : Env T :=
  mkEnv (weight e) (bias e) (x e) (target e) (output e) (loss e) (error e)
        (grad_weight e) (grad_bias e) v (new_output e)
        (new_loss e) (losses e) (i e).

Definition set_new_output {T : Type} (v : T) (e : Env T) : Env T :=
  mkEnv (weight e) (bias e) (x e) (target e) (output e) (loss e) (error e)
        (grad_weight e) (grad_bias e) (learning_rate e) v
        (new_loss e) (losses e) (i e).

Definition set_new_loss {T : Type} (v : T) (e : Env T) : Env T :=
  mkEnv (weight e) (bias e) (x e) (target e) (output e) (loss e) (error e)
        (grad_weight e) (grad_bias e) (learning_rate e) (new_output e)
        v (losses e) (i e).

Definition set_losses {T : Type} (v : list T) (e : Env T) : Env T :=
  mkEnv (weight e) (bias e) (x e) (target e) (output e) (loss e) (error e)
        (grad_weight e) (grad_bias e) (learning_rate e) (new_output e)
        (new_loss e) v (i e).

Definition set_i {T : Type} (v : nat) (e : Env T) : Env T :=
  mkEnv (weight e) (bias e) (x e) (target e) (output e) (loss e) (error e)
        (grad_weight e) (grad_bias e) (learning_rate e) (new_output e)
        (new_loss e) (losses e) v.

(** ** The random source

    [np.random.seed] and [np.random.randn] belong to NumPy, not to the
    notebook: a generator is taken as a parameter, a state type with the
    two operations the cells call.  A draw returns the sample and the next
    state. *)

Record Generator (T : Type) : Type := mkGenerator {
  rng_state : Type;
  seed : Z -> rng_state;
  randn : rng_state -> T * rng_state
}.

(** ** The code cells *)

Section Notebook.

Context {T : Type} `{Scalar T}.
Local Open Scope scalar_scope.

(** Cell 3, after its two draws [w0] and [b0]:
    <<
    weight = np.random.randn()
    bias = np.random.randn()
    x = 3.0
    target = 6.0
    >> *)

Definition cell3 (w0 b0 : T) (e : Env T) : Env T :=
  let e := set_weight w0 e in
  let e := set_bias b0 e in
  let e := set_x lit_x e in
  let e := set_target lit_target e in
  e.

(** Cell 5, the forward pass:
    <<
    output = weight * x + bias
    loss = (output - target) ** 2
    >> *)

Definition cell5 (e : Env T) : result (Env T) :=
  let e := set_output (weight e * x e + bias e) e in
  l <- pow2 (output e - target e) ;;
  let e := set_loss l e in
  Ok e.

(** Cell 7, the backward pass:
    <<
    error = output - target
    grad_weight = 2 * error * x
    grad_bias = 2 * error
    >> *)

Definition cell7 (e : Env T) : Env T :=
  let e := set_error (output e - target e) e in
  let e := set_grad_weight (lit_two * error e * x e) e in
  let e := set_grad_bias (lit_two * error e) e in
  e.

(** Cell 9, gradient descent and the loss at the new parameters:
    <<
    learning_rate = 0.01
    weight = weight - learning_rate * grad_weight
    bias = bias - learning_rate * grad_bias
    new_output = weight * x + bias
    new_loss = (new_output - target) ** 2
    >> *)

Definition cell9 (e : Env T) : result (Env T) :=
  let e := set_learning_rate lit_learning_rate e in
  let e := set_weight (weight e - learning_rate e * grad_weight e) e in
  let e := set_bias (bias e - learning_rate e * grad_bias e) e in
  let e := set_new_output (weight e * x e + bias e) e in
  l <- pow2 (new_output e - target e) ;;
  let e := set_new_loss l e in
  Ok e.

(** Cell 11, the body of the [for] loop:
    <<
    output = weight * x + bias
    loss = (output - target) ** 2
    losses.append(loss)
    error = output - target
    grad_weight = 2 * error * x
    grad_bias = 2 * error
    weight -= learning_rate * grad_weight
    bias -= learning_rate * grad_bias
    >> *)

Definition loop_body (e : Env T) : result (Env T) :=
  let e := set_output (weight e * x e + bias e) e in
  l <- pow2 (output e - target e) ;;
  let e := set_loss l e in
  let e := set_losses (losses e ++ [loss e]) e in
  let e := set_error (output e - target e) e in
  let e := set_grad_weight (lit_two * error e * x e) e in
  let e := set_grad_bias (lit_two * error e) e in
  let e := set_weight (weight e - learning_rate e * grad_weight e) e in
  let e := set_bias (bias e - learning_rate e * grad_bias e) e in
  Ok e.

(** [for i in range(...): body], over the indices still to visit. *)

Fixpoint for_range (idx : list nat) (e : Env T) : result (Env T) :=
  match idx with
  | [] => Ok e
  | k :: rest => e' <- loop_body (set_i k e) ;; for_range rest e'
  end.

Definition range (n : nat) : list nat := seq 0 n.

(** Cell 11, after its two draws [w0] and [b0]:
    <<
    weight = np.random.randn()
    bias = np.random.randn()
    losses = []
    for i in range(100): ...
    >> *)

Definition cell11 (w0 b0 : T) (e : Env T) : result (Env T) :=
  let e := set_weight w0 e in
  let e := set_bias b0 e in
  let e := set_losses [] e in
  for_range (range 100) e.

(** *** The operation [step]

    The specification names the loop body [step]: from the five values it
    reads to the new parameters and the loss it appends.  [step_env] puts
    the five values in a kernel state [e0], whose other names are whatever
    earlier cells left there. *)

Definition step_env (e0 : Env T) (w b xv t lr : T) : Env T :=
  set_learning_rate lr (set_target t (set_x xv (set_bias b (set_weight w e0)))).

Definition step_in (e0 : Env T) (w b xv t lr : T) : result (T * T * T) :=
  e <- loop_body (step_env e0 w b xv t lr) ;;
  Ok (weight e, bias e, loss e).

(** The kernel state is not an input of [step]: the blank state made of the
    inputs themselves serves. *)

Definition blank (w b xv t lr : T) : Env T :=
  mkEnv w b xv t w w w w w lr w w [] 0.

Definition step (w b xv t lr : T) : result (T * T * T) :=
  step_in (blank w b xv t lr) w b xv t lr.

(** The step as the specification writes it, quantity by quantity. *)

Definition step_spec (w b xv t lr : T) : result (T * T * T) :=
  let output := w * xv + b in
  loss <- pow2 (output - t) ;;
  let error := output - t in
  let grad_weight := lit_two * error * xv in
  let grad_bias := lit_two * error in
  let weight' := w - lr * grad_weight in
  let bias' := b - lr * grad_bias in
  Ok (weight', bias', loss).

(** The driving loop as the specification words it: the specification's
    step called [n] times, each time on the parameters the call before
    returned, with the same [x], [target] and [learning_rate], the loss of
    each call appended to the trace. *)

Fixpoint driving_loop (n : nat) (w b xv t lr : T) (trace : list T)
  : result (T * T * list T) :=
  match n with
  | O => Ok (w, b, trace)
  | S n' =>
      r <- step_spec w b xv t lr ;;
      let '(w', b', l) := r in
      driving_loop n' w' b' xv t lr (trace ++ [l])
  end.

(** The loss an iteration entered in state [e] computes. *)

Definition loss_at (e : Env T) : result T :=
  pow2 (weight e * x e + bias e - target e).

(** The state cell 11 enters its loop with. *)

Definition loop_start (w0 b0 : T) (e : Env T) : Env T :=
  set_losses [] (set_bias b0 (set_weight w0 e)).

(** A run of [n] iterations either completes, with one loss appended per
    iteration and the sample and the learning rate untouched, or stops at
    the first iteration whose loss raises. *)

Definition completes (n : nat) (e e' : Env T) : Prop :=
  for_range (range n) e = Ok e' /\
  x e' = x e /\ target e' = target e /\ learning_rate e' = learning_rate e /\
  exists trace,
    losses e' = losses e ++ trace /\ length trace = n /\
    forall k, (k < n)%nat ->
      exists ek l, for_range (range k) e = Ok ek /\ loss_at ek = Ok l /\
                   nth_error trace k = Some l.

Definition stops (n : nat) (e : Env T) (ex : exn) : Prop :=
  for_range (range n) e = Raise ex /\
  exists k ek, (k < n)%nat /\ for_range (range k) e = Ok ek /\
               loss_at ek = Raise ex.

(** *** The whole notebook

    Cells 1 to 11 in order, on a generator [G] and from the kernel state
    [e0]; cell 1 is [np.random.seed(42)]. *)

Definition walkthrough (w0 b0 : T) (e0 : Env T) : result (Env T) :=
  let e := cell3 w0 b0 e0 in
  e <- cell5 e ;;
  let e := cell7 e in
  cell9 e.

Definition notebook_from (G : Generator T) (s : Z) (e0 : Env T)
  : result (Env T * rng_state G) :=
  let g := seed G s in
  let '(w0, g) := randn G g in
  let '(b0, g) := randn G g in
  e <- walkthrough w0 b0 e0 ;;
  let '(w1, g) := randn G g in
  let '(b1, g) := randn G g in
  e <- cell11 w1 b1 e ;;
  Ok (e, g).

Definition notebook (G : Generator T) (e0 : Env T)
  : result (Env T * rng_state G) :=
  notebook_from G 42 e0.

(** The parameters each of the two demonstrations starts from: the first
    two draws (cell 3) and the next two (cell 11). *)

Definition initial_parameters (G : Generator T) (s : Z) : (T * T) * (T * T) :=
  let g := seed G s in
  let '(w0, g) := randn G g in
  let '(b0, g) := randn G g in
  let '(w1, g) := randn G g in
  let '(b1, g) := randn G g in
  ((w0, b0), (w1, b1)).

(** The generator state once four samples have been drawn. *)

Definition after_four_draws (G : Generator T) (s : Z) : rng_state G :=
  snd (randn G (snd (randn G (snd (randn G (snd (randn G (seed G s)))))))).

(** A generator that replays a fixed tape of samples per seed; [dflt] once
    the tape is used up. *)

Definition tape_generator (tape : Z -> list T) (dflt : T) : Generator T :=
  mkGenerator tape
    (fun st => match st with
               | [] => (dflt, [])
               | v :: rest => (v, rest)
               end).

End Notebook.

(** ** Binary64 scalars

    Python's [float] is the binary64 format; [*], [+] and [-] on floats
    round to nearest-even and never raise.  [v ** 2] converts the integer
    exponent to [2.0] and runs the interpreter's float power: NaN and the
    infinities are answered before the C library is called, a zero gives
    [0.0], a negative base is replaced by its absolute value, a base of
    [1.0] gives [1.0], and otherwise the result of the C library's
    [pow(v, 2.0)] is returned unless it is infinite, which raises
    [OverflowError] (a result that underflows to zero is returned).

    The C library is not part of the notebook, and its [pow] need not
    return the correctly rounded square: it is a parameter, [libm_pow2 v]
    standing for [pow(v, 2.0)].  Python calls it on bases that are finite,
    positive and different from 1 only. *)

Class Libm : Type := {
  libm_pow2 : float -> float
}.

Definition float_pow2 {L : Libm} (v : float) : result float :=
  if PrimFloat.is_nan v then Ok v
  else if PrimFloat.is_infinity v then Ok (PrimFloat.abs v)
  else if PrimFloat.eqb v 0%float then Ok 0%float
  else
    let iv := if PrimFloat.ltb v 0%float then PrimFloat.opp v else v in
    if PrimFloat.eqb iv 1%float then Ok 1%float
    else
      let ix := libm_pow2 iv in
      if PrimFloat.is_infinity ix then Raise OverflowError else Ok ix.

#[export] Instance float_scalar {L : Libm} : Scalar float := {
  add := PrimFloat.add;
  sub := PrimFloat.sub;
  mul := PrimFloat.mul;
  pow2 := float_pow2;
  lit_two := 2%float;
  lit_x := 3.0%float;
  lit_target := 6.0%float;
  lit_learning_rate := 0.01%float
}.

(** Two libraries.  [correctly_rounded] returns the square rounded to
    nearest-even; it is the library of every statement that names none.
    [glibc_at_three_bases] returns what glibc 2.36 returns at three bases
    where its [pow] is one unit in the last place away from the rounded
    square ([2.759 ** 2] is [7.612080999999999], the rounded square
    [7.612081]), and the rounded square elsewhere. *)

#[export] Instance correctly_rounded : Libm := {
  libm_pow2 := fun v => PrimFloat.mul v v
}.

Definition glibc_at_three_bases : Libm := {|
  libm_pow2 := fun v =>
    if PrimFloat.eqb v 2.759%float then 0x1.e72c55c96030bp+2%float
    else if PrimFloat.eqb v 4.536%float then 0x1.4934699418504p+4%float
    else if PrimFloat.eqb v 7.150874296257825e-06%float
         then 0x1.c1c9ca6a0a2c9p-35%float
    else PrimFloat.mul v v
|}.

(** ** Exact scalars *)

#[export] Instance real_scalar : Scalar R := {
  add := Rplus;
  sub := Rminus;
  mul := Rmult;
  pow2 := fun v => Ok (v * v)%R;
  lit_two := 2%R;
  lit_x := 3%R;
  lit_target := 6%R;
  lit_learning_rate := (1 / 100)%R
}.

(** ** Reading a binary64 number exactly

    A finite float is [± m * 2^e]; [float_value] is that rational. *)

Definition spec_value (f : spec_float) : option Q :=
  match f with
  | S754_zero _ => Some 0%Q
  | S754_finite s m e => Some (inject_Z (cond_Zopp s (Zpos m)) * Qpower 2 e)%Q
  | S754_infinity _ => None
  | S754_nan => None
  end.

Definition float_value (f : float) : option Q := spec_value (Prim2SF f).

(** [round_half_even q] is the integer nearest to [q], ties to the even
    one; [shown d v] is [v] as Python's [f"{v:.df}"] prints it, read as an
    integer count of units [10^-d] (the conversion rounds the exact value
    of the float, ties to even). *)

Definition round_half_even (q : Q) : Z :=
  let n := Qnum q in
  let d := Zpos (Qden q) in
  let fl := (n / d)%Z in
  let r := (n mod d)%Z in
  match (2 * r ?= d)%Z with
  | Lt => fl
  | Gt => (fl + 1)%Z
  | Eq => if Z.even fl then fl else (fl + 1)%Z
  end.

Definition shown (d : nat) (v : float) : option Z :=
  match float_value v with
  | Some q => Some (round_half_even (q * inject_Z (10 ^ Z.of_nat d)))
  | None => None
  end.

(** [close d v r]: the float [v] is within half a unit of the [d]-th
    decimal place of the rational [r]. *)

Definition close (d : nat) (v : float) (r : Q) : bool :=
  match float_value v with
  | Some q => Qle_bool (Qabs (q - r) * inject_Z (2 * 10 ^ Z.of_nat d)) 1
  | None => false
  end.

(** Python's [==] on floats, and the test for a finite value. *)

Definition same (a b : float) : bool := PrimFloat.eqb a b.

Definition finite (a : float) : bool := PrimFloat.is_finite a.

(** [alike a b]: the same float, or two zeros, whatever their signs.  On
    finite floats this is what [==] tests. *)

Definition alike (a b : float) : Prop :=
  a = b \/ (PrimFloat.is_zero a = true /\ PrimFloat.is_zero b = true).

(** The prediction error of a state, and the gradient of the weight. *)

Definition float_error (e : Env float) : float :=
  PrimFloat.sub (PrimFloat.add (PrimFloat.mul (weight e) (x e)) (bias e))
                (target e).

Definition float_grad_weight (e : Env float) : float :=
  PrimFloat.mul (PrimFloat.mul 2%float (float_error e)) (x e).

(** A kernel in which no cell has run yet: NaN stands for a name that is
    not assigned, so that reading one would show in every result. *)

Definition unassigned : Env float :=
  mkEnv nan nan nan nan nan nan nan nan nan nan nan nan [] 0.

(** The state the specification quotes, [weight = 0.497] and
    [bias = -0.138], after cell 3 has set the sample. *)

Definition quoted_state (e0 : Env float) : Env float :=
  cell3 0.497%float (-0.138)%float e0.

(** The four samples NumPy's generator returns after [seed(42)].  They are
    not in the notebook, which prints the first two as [0.497] and
    [-0.138]; with them the model prints what the notebook's output cells
    recorded (see [reference_run_prints_the_recorded_outputs]). *)

Definition numpy_seed_42 : Generator float :=
  tape_generator
    (fun s => if (s =? 42)%Z
              then [0.4967141530112327%float; (-0.13826430117118466)%float;
                    0.6476885381006925%float; 1.5230298564080254%float]
              else [])
    nan.

(** ** Quantities of the exact model

    [residual e] is the signed error of the prediction in state [e], and
    [contraction lr xv] the factor one step multiplies it by. *)

Definition residual (e : Env R) : R :=
  (weight e * x e + bias e - target e)%R.

Definition contraction (lr xv : R) : R :=
  (1 - 2 * lr * (xv * xv + 1))%R.

(** [converges_to e winf binf]: iterating the loop body from [e], the loss
    and the error of the prediction fall under every positive bound, and
    the parameters come as close to [(winf, binf)] as wanted. *)

Definition converges_to (e : Env R) (winf binf : R) : Prop :=
  forall eps : R, (0 < eps)%R ->
    exists N : nat, forall n : nat, (n >= N)%nat ->
      exists (en : Env R) (l : R),
        for_range (range n) e = Ok en /\
        loss_at en = Ok l /\ (0 <= l < eps)%R /\
        (Rabs (weight en * x e + bias en - target e) < eps)%R /\
        (Rabs (weight en - winf) < eps)%R /\
        (Rabs (bias en - binf) < eps)%R.

(** ** What the cells print

    Besides the names they assign, the cells print three quantities they
    compute on the spot: the distance [abs(output - target)] in cell 5,
    the reduction [loss - new_loss] in cell 9 and the final prediction
    [weight * x + bias] in cell 11. *)

Class Absolute (T : Type) : Type := {
  absolute : T -> T
}.

#[export] Instance float_absolute : Absolute float := {
  absolute := PrimFloat.abs
}.

#[export] Instance real_absolute : Absolute R := {
  absolute := Rabs
}.

Definition off_by {T : Type} `{Scalar T} `{Absolute T} (e : Env T) : T :=
  absolute (output e - target e)%sc.

Definition loss_reduced_by {T : Type} `{Scalar T} (e : Env T) : T :=
  (loss e - new_loss e)%sc.

Definition final_prediction {T : Type} `{Scalar T} (e : Env T) : T :=
  (weight e * x e + bias e)%sc.

(** [untouched_by_index r]: the outcome [r] of a loop with the loop
    variable [i] put back to 0, to compare runs over different indices. *)

Definition untouched_by_index {T : Type} (r : result (Env T))
  : result (Env T) :=
  e <- r ;; Ok (set_i 0 e).

(** Two states that a run of the loop cannot tell apart: they hold the
    same parameters, sample, learning rate and list of losses. *)

Definition same_inputs {T : Type} (e1 e2 : Env T) : Prop :=
  weight e1 = weight e2 /\ bias e1 = bias e2 /\ x e1 = x e2 /\
  target e1 = target e2 /\ learning_rate e1 = learning_rate e2 /\
  losses e1 = losses e2.

(** Two states with the same training variables: everything the loop
    assigns, the loop variable aside. *)

Definition same_training {T : Type} (e1 e2 : Env T) : Prop :=
  same_inputs e1 e2 /\ output e1 = output e2 /\ loss e1 = loss e2 /\
  error e1 = error e2 /\ grad_weight e1 = grad_weight e2 /\
  grad_bias e1 = grad_bias e2 /\ i e1 = i e2.

(** A float that is not below zero: zero, positive, or NaN. *)

Definition not_negative (l : float) : Prop := PrimFloat.ltb l 0%float = false.

(** What every C library grants of [pow(v, 2.0)] on a finite base: the
    result is neither NaN nor below zero. *)

Definition sign_respecting (L : Libm) : Prop :=
  forall v : float,
    finite v = true ->
    PrimFloat.is_nan (libm_pow2 v) = false /\ not_negative (libm_pow2 v).

(** ** Magnitudes on binary64

    [within k f]: [f] is a zero or a finite number of absolute value at
    most [2 ^ k]; the mantissa [m] and exponent [e] of a finite number
    stand for [m * 2 ^ e].  [at_most c f] is the test [abs(f) <= c]. *)

Definition spec_within (k : Z) (f : spec_float) : Prop :=
  match f with
  | S754_zero _ => True
  | S754_finite _ m e => (Zpos m <= 2 ^ (k - e))%Z
  | _ => False
  end.

Definition within (k : Z) (f : float) : Prop := spec_within k (Prim2SF f).

Definition at_most (c f : float) : Prop :=
  PrimFloat.leb (PrimFloat.abs f) c = true.


(** * Properties *)

Unset Implicit Arguments.

(** ** The loop body, over any scalars *)

Section Generic.

Context {T : Type} `{Scalar T}.
Local Open Scope scalar_scope.

Lemma bind_ok_inv {A B : Type} (r : result A) (k : A -> result B) (b : B) :
  bind r k = Ok b -> exists a, r = Ok a /\ k a = Ok b.
Proof.
  destruct r as [a | ex]; simpl; intros Hk; [ | discriminate ].
  exists a; split; [ reflexivity | exact Hk ].
Qed.


(** The loop body is the forward pass followed by updates that cannot
    fail: it stops exactly when the loss does. *)

Lemma loop_body_unfold (e : Env T) :
  loop_body e =
  (l <- loss_at e ;;
   let out := weight e * x e + bias e in
   let err := out - target e in
   let gw := lit_two * err * x e in
   let gb := lit_two * err in
   Ok (mkEnv (weight e - learning_rate e * gw) (bias e - learning_rate e * gb)
             (x e) (target e) out l err gw gb (learning_rate e)
             (new_output e) (new_loss e) (losses e ++ [l]) (i e))).
Proof. reflexivity. Qed.

Lemma loss_at_set_i (k : nat) (e : Env T) : loss_at (set_i k e) = loss_at e.
Proof. reflexivity. Qed.


Lemma loop_body_ok (e e' : Env T) :
  loop_body e = Ok e' ->
  exists l, loss_at e = Ok l /\ loss e' = l /\ losses e' = losses e ++ [l] /\
            x e' = x e /\ target e' = target e /\
            learning_rate e' = learning_rate e.
Proof.
  rewrite loop_body_unfold. intros Hb.
  apply bind_ok_inv in Hb. destruct Hb as (l & Hl & Hk).
  injection Hk as <-. exists l. simpl. repeat split; assumption.
Qed.

Lemma loop_body_raise (e : Env T) (ex : exn) :
  loop_body e = Raise ex <-> loss_at e = Raise ex.
Proof.
  rewrite loop_body_unfold. destruct (loss_at e) as [l | ex']; simpl.
  - split; discriminate.
  - split; intros Hr; injection Hr as ->; reflexivity.
Qed.

(** One more index at the end of the range is one more run of the body. *)

Lemma for_range_app (idx : list nat) (k : nat) (e : Env T) :
  for_range (idx ++ [k]) e =
  (e1 <- for_range idx e ;; loop_body (set_i k e1)).
Proof.
  revert e. induction idx as [ | j idx IH]; intros e; simpl.
  - destruct (loop_body (set_i k e)); reflexivity.
  - destruct (loop_body (set_i j e)) as [e1 | ex]; simpl;
      [ apply IH | reflexivity ].
Qed.

Lemma range_succ (n : nat) : range (S n) = range n ++ [n].
Proof. unfold range. rewrite seq_S. reflexivity. Qed.

Lemma for_range_succ (n : nat) (e : Env T) :
  for_range (range (S n)) e =
  (e1 <- for_range (range n) e ;; loop_body (set_i n e1)).
Proof. rewrite range_succ. apply for_range_app. Qed.

Lemma for_range_outcome (n : nat) (e : Env T) :
  (exists e', completes n e e') \/ (exists ex, stops n e ex).
Proof.
  induction n as [ | n IH].
  - left. exists e. unfold completes. simpl.
    repeat split; try reflexivity.
    exists []. rewrite app_nil_r. repeat split. intros k Hk. lia.
  - destruct IH as [(e1 & Hrun & Hx & Ht & Hlr & tr & Hpre & Hlen & Hnth)
                   | (ex & Hrun & k & ek & Hk & Hek & Hraise)].
    + case_eq (loop_body (set_i n e1)).
      * intros e2 Hb. left. exists e2.
        destruct (loop_body_ok _ _ Hb) as (l & Hl & _ & Hls & Hx2 & Ht2 & Hlr2).
        simpl in Hls, Hx2, Ht2, Hlr2. rewrite loss_at_set_i in Hl.
        unfold completes. rewrite for_range_succ, Hrun. simpl.
        split; [ exact Hb | ].
        split; [ congruence | ]. split; [ congruence | ].
        split; [ congruence | ].
        exists (tr ++ [l]).
        split; [ rewrite Hls, Hpre, app_assoc; reflexivity | ].
        split; [ rewrite length_app, Hlen; simpl; lia | ].
        intros k Hk. destruct (Nat.eq_dec k n) as [-> | Hne].
        -- exists e1, l. split; [ exact Hrun | ]. split; [ exact Hl | ].
           rewrite nth_error_app2 by lia.
           replace (n - length tr)%nat with 0%nat by lia.
           reflexivity.
        -- destruct (Hnth k ltac:(lia)) as (ek & lk & Hek & Hlk & Hn).
           exists ek, lk. split; [ exact Hek | ]. split; [ exact Hlk | ].
           rewrite nth_error_app1 by lia. exact Hn.
      * intros ex Hb. right. exists ex. unfold stops.
        rewrite for_range_succ, Hrun. simpl. split; [ exact Hb | ].
        exists n, e1. split; [ lia | ]. split; [ exact Hrun | ].
        apply loop_body_raise in Hb. rewrite loss_at_set_i in Hb. exact Hb.
    + right. exists ex. unfold stops. rewrite for_range_succ, Hrun. simpl.
      split; [ reflexivity | ].
      exists k, ek. split; [ lia | ]. split; assumption.
Qed.

(** The list [losses] is only appended to: a run started with any list
    [l] in it is the run started with the empty list, with [l] in front. *)

Lemma set_losses_twice (l l' : list T) (e : Env T) :
  set_losses l (set_losses l' e) = set_losses l e.
Proof. reflexivity. Qed.

Lemma for_range_losses_frame (idx : list nat) (l : list T) (e : Env T) :
  for_range idx (set_losses l e) =
  (e' <- for_range idx (set_losses [] e) ;; Ok (set_losses (l ++ losses e') e')).
Proof.
  revert l e. induction idx as [ | k idx IH]; intros l e.
  - simpl. rewrite app_nil_r. reflexivity.
  - simpl. rewrite !loop_body_unfold. simpl.
    change (loss_at (set_i k (set_losses l e))) with (loss_at e).
    change (loss_at (set_i k (set_losses [] e))) with (loss_at e).
    destruct (loss_at e) as [v | ex]; simpl; [ | reflexivity ].
    match goal with
    | |- for_range idx ?a = bind (for_range idx ?b) _ =>
        change a with (set_losses (l ++ [v]) b);
        change b with (set_losses [v] b)
    end.
    rewrite (IH (l ++ [v])), (IH [v]). rewrite !set_losses_twice.
    match goal with
    | |- bind ?r _ = _ => destruct r as [e' | ex]; simpl; [ | reflexivity ]
    end.
    rewrite <- app_assoc. reflexivity.
Qed.

(** The earlier cells leave the sample alone, and cell 9 sets the learning
    rate. *)

Lemma cell5_ok (e e' : Env T) :
  cell5 e = Ok e' ->
  x e' = x e /\ target e' = target e /\ weight e' = weight e /\
  bias e' = bias e.
Proof.
  unfold cell5. intros Hc. apply bind_ok_inv in Hc.
  destruct Hc as (l & _ & Hk). injection Hk as <-. simpl. repeat split.
Qed.

Lemma cell9_ok (e e' : Env T) :
  cell9 e = Ok e' ->
  x e' = x e /\ target e' = target e /\ learning_rate e' = lit_learning_rate.
Proof.
  unfold cell9. intros Hc. apply bind_ok_inv in Hc.
  destruct Hc as (l & _ & Hk). injection Hk as <-. simpl. repeat split.
Qed.

Lemma notebook_from_ok (G : Generator T) (s : Z) (e0 e' : Env T)
      (g : rng_state G) :
  notebook_from G s e0 = Ok (e', g) ->
  g = after_four_draws G s /\
  exists e9,
    x e9 = lit_x /\ target e9 = lit_target /\
    learning_rate e9 = lit_learning_rate /\
    cell11 (fst (snd (initial_parameters G s)))
           (snd (snd (initial_parameters G s))) e9 = Ok e'.
Proof.
  unfold notebook_from, initial_parameters, after_four_draws, walkthrough.
  destruct (randn G (seed G s)) as [w0 g1]. cbn [fst snd].
  destruct (randn G g1) as [b0 g2]. cbn [fst snd].
  destruct (randn G g2) as [w1 g3]. cbn [fst snd].
  destruct (randn G g3) as [b1 g4]. cbn [fst snd].
  intros Hn.
  apply bind_ok_inv in Hn. destruct Hn as (e9 & Hw & Hn).
  apply bind_ok_inv in Hw. destruct Hw as (e5 & H5 & H9).
  apply bind_ok_inv in Hn. destruct Hn as (e11 & H11 & Hn).
  injection Hn as <- <-. split; [ reflexivity | ].
  exists e9.
  destruct (cell5_ok _ _ H5) as (Hx5 & Ht5 & _).
  destruct (cell9_ok _ _ H9) as (Hx9 & Ht9 & Hlr9).
  simpl in Hx5, Ht5, Hx9, Ht9.
  repeat split; try congruence.
Qed.

(** What a cell assigns before reading it does not depend on the kernel
    state the run started from. *)

Lemma step_in_prior (e1 e2 : Env T) (w b xv t lr : T) :
  step_in e1 w b xv t lr = step_in e2 w b xv t lr.
Proof.
  unfold step_in. rewrite !loop_body_unfold. unfold loss_at, step_env. simpl.
  destruct (pow2 (w * xv + b - t)); reflexivity.
Qed.

Lemma step_in_is_step_spec (e1 : Env T) (w b xv t lr : T) :
  step_in e1 w b xv t lr = step_spec w b xv t lr.
Proof.
  unfold step_in, step_spec. rewrite loop_body_unfold.
  unfold loss_at, step_env. simpl.
  destruct (pow2 (w * xv + b - t)); reflexivity.
Qed.

Lemma step_is_step_spec (w b xv t lr : T) :
  step w b xv t lr = step_spec w b xv t lr.
Proof. apply step_in_is_step_spec. Qed.

Lemma walkthrough_prior (w0 b0 : T) (e1 e2 : Env T) :
  match walkthrough w0 b0 e1, walkthrough w0 b0 e2 with
  | Ok a1, Ok a2 => set_i 0 (set_losses [] a1) = set_i 0 (set_losses [] a2)
  | Raise x1, Raise x2 => x1 = x2
  | _, _ => False
  end.
Proof.
  unfold walkthrough, cell9, cell7, cell5, cell3. simpl.
  destruct (pow2 (w0 * lit_x + b0 - lit_target)) as [l | ex]; simpl;
    [ | reflexivity ].
  match goal with
  | |- context [pow2 ?a] => destruct (pow2 a) as [l' | ex]; simpl
  end; reflexivity.
Qed.

Lemma cell11_first (w b : T) (e : Env T) :
  cell11 w b e =
  (e1 <- loop_body (set_bias b (set_weight w (set_i 0 (set_losses [] e)))) ;;
   for_range (seq 1 99) e1).
Proof. reflexivity. Qed.

Lemma cell11_prior (w b : T) (e1 e2 : Env T) :
  set_i 0 (set_losses [] e1) = set_i 0 (set_losses [] e2) ->
  cell11 w b e1 = cell11 w b e2.
Proof. intros Heq. rewrite !cell11_first, Heq. reflexivity. Qed.

Lemma notebook_from_prior (G : Generator T) (s : Z) (e1 e2 : Env T) :
  notebook_from G s e1 = notebook_from G s e2.
Proof.
  unfold notebook_from.
  destruct (randn G (seed G s)) as [w0 g1].
  destruct (randn G g1) as [b0 g2].
  pose proof (walkthrough_prior w0 b0 e1 e2) as Hw.
  destruct (walkthrough w0 b0 e1) as [a1 | x1],
           (walkthrough w0 b0 e2) as [a2 | x2]; simpl; try contradiction.
  - destruct (randn G g2) as [w1 g3]. destruct (randn G g3) as [b1 g4].
    rewrite (cell11_prior w1 b1 _ _ Hw). reflexivity.
  - rewrite Hw. reflexivity.
Qed.

(** The loop of cell 11 is the driving loop of the specification. *)

Lemma driving_loop_length (n : nat) (w b xv t lr : T) (trace : list T)
      (w' b' : T) (trace' : list T) :
  driving_loop n w b xv t lr trace = Ok (w', b', trace') ->
  length trace' = (length trace + n)%nat.
Proof.
  revert w b trace. induction n as [ | n IH]; intros w b trace; cbn [driving_loop].
  - intros Hd. injection Hd as <- <- <-. lia.
  - destruct (step_spec w b xv t lr) as [[[w1 b1] l] | ex]; cbn [bind];
      [ | discriminate ].
    intros Hd. rewrite (IH _ _ _ Hd), length_app. cbn [length]. lia.
Qed.

Lemma for_range_is_driving_loop (idx : list nat) (e : Env T) :
  match for_range idx e,
        driving_loop (length idx) (weight e) (bias e) (x e) (target e)
                     (learning_rate e) (losses e) with
  | Ok e', Ok (w, b, trace) =>
      weight e' = w /\ bias e' = b /\ losses e' = trace /\
      x e' = x e /\ target e' = target e /\
      learning_rate e' = learning_rate e
  | Raise ex, Raise ex' => ex = ex'
  | _, _ => False
  end.
Proof.
  revert e. induction idx as [ | k rest IH]; intros e;
    cbn [for_range length driving_loop].
  - repeat split.
  - rewrite loop_body_unfold. unfold step_spec, loss_at.
    cbn [weight bias x target set_i].
    destruct (pow2 (weight e * x e + bias e - target e)) as [l | ex];
      cbn [bind]; [ | reflexivity ].
    cbv zeta.
    match goal with
    | |- context [for_range rest ?e1] => specialize (IH e1)
    end.
    cbn [weight bias x target learning_rate losses set_i] in IH.
    exact IH.
Qed.

End Generic.

(** ** Exact arithmetic *)

Section Exact.

Local Open Scope R_scope.

Lemma real_loop_body (e : Env R) :
  exists e',
    loop_body e = Ok e' /\
    x e' = x e /\ target e' = target e /\
    learning_rate e' = learning_rate e /\
    loss e' = residual e * residual e /\
    error e' = residual e /\
    residual e' = contraction (learning_rate e) (x e) * residual e /\
    weight e' - x e * bias e' = weight e - x e * bias e.
Proof.
  rewrite loop_body_unfold. unfold loss_at. simpl.
  eexists. split; [ reflexivity | ]. unfold residual, contraction. simpl.
  repeat split; ring.
Qed.

Lemma real_loss_at (e : Env R) : loss_at e = Ok (residual e * residual e).
Proof. reflexivity. Qed.

(** In exact arithmetic the loop always completes; after [n] iterations
    the residual has been multiplied [n] times by the contraction factor,
    and [weight - x * bias] is what it was. *)

Lemma real_for_range (n : nat) (e : Env R) :
  exists e',
    for_range (range n) e = Ok e' /\
    x e' = x e /\ target e' = target e /\
    learning_rate e' = learning_rate e /\
    residual e' = contraction (learning_rate e) (x e) ^ n * residual e /\
    weight e' - x e * bias e' = weight e - x e * bias e.
Proof.
  induction n as [ | n (e1 & Hrun & Hx & Ht & Hlr & Hres & Hinv)].
  - exists e. simpl. repeat split; ring.
  - destruct (real_loop_body (set_i n e1))
      as (e2 & Hb & Hx2 & Ht2 & Hlr2 & _ & _ & Hres2 & Hinv2).
    exists e2. rewrite for_range_succ, Hrun. simpl.
    split; [ exact Hb | ].
    simpl in Hx2, Ht2, Hlr2, Hinv2.
    change (residual (set_i n e1)) with (residual e1) in Hres2.
    simpl in Hres2.
    repeat split; try congruence.
    rewrite Hres2, Hres, Hlr, Hx. ring.
Qed.

Lemma real_completes (n : nat) (e : Env R) : exists e', completes n e e'.
Proof.
  destruct (for_range_outcome n e) as [Hc | (ex & Hrun & _)];
    [ exact Hc | ].
  destruct (real_for_range n e) as (e' & Hok & _).
  rewrite Hok in Hrun. discriminate.
Qed.

(** In exact arithmetic a zero learning rate changes nothing, whatever
    the inputs, and every state on the solution line is left as it is,
    whatever the learning rate. *)

Lemma real_zero_rate_run (n : nat) (e : Env R) :
  learning_rate e = 0 ->
  exists e',
    for_range (range n) e = Ok e' /\
    weight e' = weight e /\ bias e' = bias e /\
    x e' = x e /\ target e' = target e /\ learning_rate e' = 0 /\
    losses e' = losses e ++ repeat (residual e * residual e) n.
Proof.
  intros Hlr. induction n as [ | n (e1 & Hrun & Hw & Hb & Hx & Ht & Hl & Hls)].
  - exists e. simpl. rewrite app_nil_r. repeat split. exact Hlr.
  - rewrite for_range_succ, Hrun. simpl. rewrite loop_body_unfold.
    unfold loss_at. simpl. eexists. split; [ reflexivity | ]. simpl.
    rewrite Hl, Hw, Hb, Hx, Ht, Hls. repeat split; try ring.
    rewrite <- app_assoc. f_equal.
    change (?v :: repeat ?v n) with (repeat v (S n)).
    rewrite <- repeat_cons. reflexivity.
Qed.

Lemma real_solution_line_body (e : Env R) :
  residual e = 0 ->
  exists e',
    loop_body e = Ok e' /\
    loss e' = 0 /\ error e' = 0 /\ grad_weight e' = 0 /\ grad_bias e' = 0 /\
    weight e' = weight e /\ bias e' = bias e /\ residual e' = 0.
Proof.
  intros Hres. rewrite loop_body_unfold. unfold loss_at. simpl.
  eexists. split; [ reflexivity | ]. unfold residual in *. simpl.
  rewrite Hres. repeat split; try ring.
  replace (weight e - learning_rate e * (2 * 0 * x e)) with (weight e)
    by ring.
  replace (bias e - learning_rate e * (2 * 0)) with (bias e) by ring.
  exact Hres.
Qed.

Lemma contraction_reference :
  contraction lit_learning_rate lit_x = 8 / 10.
Proof. unfold contraction. simpl. field. Qed.

Lemma contraction_small (lr : R) :
  0 < lr < 1 / 10 -> Rabs (contraction lr lit_x) < 1.
Proof.
  intros [Hlo Hhi]. unfold contraction. simpl.
  apply Rabs_def1; lra.
Qed.

(** A geometric sequence of ratio below one in absolute value falls under
    every positive bound. *)

Lemma geometric_vanishes (r c eps : R) :
  Rabs r < 1 -> 0 < eps ->
  exists N, forall n, (n >= N)%nat -> Rabs (r ^ n * c) < eps.
Proof.
  intros Hr Heps.
  assert (Hc : 0 < Rabs c + 1) by (pose proof (Rabs_pos c); lra).
  destruct (pow_lt_1_zero r Hr (eps / (Rabs c + 1)))
    as [N HN]; [ apply Rdiv_lt_0_compat; assumption | ].
  exists N. intros n Hn. specialize (HN n Hn).
  rewrite Rabs_mult.
  apply Rle_lt_trans with (Rabs (r ^ n) * (Rabs c + 1)).
  - apply Rmult_le_compat_l; [ apply Rabs_pos | lra ].
  - apply Rmult_lt_reg_r with (/ (Rabs c + 1));
      [ apply Rinv_0_lt_compat; exact Hc | ].
    rewrite Rmult_assoc, Rinv_r, Rmult_1_r by lra. exact HN.
Qed.

End Exact.

(** ** Binary64 arithmetic

    The kernel's operations on [float] are specified through [Prim2SF];
    the lemmas below read the classification tests through that
    specification, and Python's power on the correctly rounded library. *)

Section Binary64.

Local Open Scope float_scope.

Lemma SFcompare_finite_refl (s : bool) (m : positive) (e : Z) :
  SFcompare (S754_finite s m e) (S754_finite s m e) = Some Eq.
Proof.
  simpl. rewrite Z.compare_refl, Pos.compare_cont_refl.
  destruct s; reflexivity.
Qed.

Lemma is_nan_spec (f : float) :
  is_nan f = match Prim2SF f with S754_nan => true | _ => false end.
Proof.
  unfold is_nan. rewrite eqb_spec. unfold SFeqb.
  destruct (Prim2SF f) as [s | s | | s m e].
  - reflexivity.
  - destruct s; reflexivity.
  - reflexivity.
  - rewrite SFcompare_finite_refl. reflexivity.
Qed.

Lemma is_infinity_spec (f : float) :
  is_infinity f =
  match Prim2SF f with S754_infinity _ => true | _ => false end.
Proof.
  unfold is_infinity. rewrite eqb_spec, abs_spec.
  change (Prim2SF infinity) with (S754_infinity false).
  destruct (Prim2SF f) as [s | s | | s m e]; reflexivity.
Qed.

Lemma finite_spec (f : float) :
  finite f =
  match Prim2SF f with
  | S754_zero _ | S754_finite _ _ _ => true
  | _ => false
  end.
Proof.
  unfold finite, is_finite. rewrite is_nan_spec, is_infinity_spec.
  destruct (Prim2SF f); reflexivity.
Qed.

Lemma eqb_zero_spec (f : float) :
  (f =? 0) = match Prim2SF f with S754_zero _ => true | _ => false end.
Proof.
  rewrite eqb_spec. change (Prim2SF 0) with (S754_zero false).
  destruct (Prim2SF f) as [s | s | | s m e]; try reflexivity;
    destruct s; reflexivity.
Qed.

Lemma ltb_zero_spec (f : float) :
  (f <? 0) =
  match Prim2SF f with
  | S754_infinity s | S754_finite s _ _ => s
  | _ => false
  end.
Proof.
  rewrite ltb_spec. change (Prim2SF 0) with (S754_zero false).
  destruct (Prim2SF f) as [s | s | | s m e]; try reflexivity;
    destruct s; reflexivity.
Qed.

(** Python's [v ** 2] is the product [v * v], except that it raises when
    a finite [v] has an infinite square. *)

Lemma float_pow2_square (v : float) :
  float_pow2 v =
  if finite v && is_infinity (v * v) then Raise OverflowError
  else Ok (v * v).
Proof.
  unfold float_pow2.
  rewrite is_nan_spec, (is_infinity_spec v), eqb_zero_spec, ltb_zero_spec,
    finite_spec.
  pose proof (mul_spec v v) as Hsq.
  destruct (Prim2SF v) as [s | s | | s m e] eqn:Ev; simpl.
  - rewrite (is_infinity_spec (v * v)), Hsq. simpl.
    f_equal. apply Prim2SF_inj. rewrite Hsq. destruct s; reflexivity.
  - f_equal. apply Prim2SF_inj. rewrite Hsq, abs_spec, Ev.
    destruct s; reflexivity.
  - f_equal. apply Prim2SF_inj. rewrite Hsq. exact Ev.
  - set (iv := if s then - v else v).
    assert (Hiv : Prim2SF iv = S754_finite false m e).
    { unfold iv. destruct s; [ rewrite opp_spec, Ev | rewrite Ev ];
        reflexivity. }
    assert (Hmul : iv * iv = v * v).
    { apply Prim2SF_inj. rewrite Hsq, mul_spec, Hiv.
      destruct s; [ | reflexivity ].
      unfold SF64mul, SFmul. simpl xorb. reflexivity. }
    rewrite Hmul.
    destruct (iv =? 1) eqn:Hone; [ | reflexivity ].
    assert (H1 : iv = 1).
    { apply Prim2SF_inj. rewrite Hiv. rewrite eqb_spec, Hiv in Hone.
      change (Prim2SF 1) with (S754_finite false 4503599627370496 (-52))
        in Hone |- *.
      unfold SFeqb in Hone. cbn [SFcompare] in Hone.
      destruct (e ?= -52)%Z eqn:He; try discriminate.
      apply Z.compare_eq in He. subst e.
      destruct (Pos.compare_cont Eq m 4503599627370496) eqn:Hm;
        try discriminate.
      apply Pos.compare_eq in Hm. subst m. reflexivity. }
    rewrite <- Hmul, H1. reflexivity.
Qed.

(** *** Zeros and finiteness through the operations *)

Lemma is_zero_spec (f : float) :
  is_zero f = match Prim2SF f with S754_zero _ => true | _ => false end.
Proof. apply eqb_zero_spec. Qed.

Lemma is_zero_finite (f : float) : is_zero f = true -> finite f = true.
Proof.
  rewrite is_zero_spec, finite_spec.
  destruct (Prim2SF f); intros Hz; try discriminate; reflexivity.
Qed.

Ltac to_spec :=
  repeat rewrite ?is_zero_spec, ?finite_spec, ?is_infinity_spec,
    ?mul_spec, ?add_spec, ?sub_spec in *.

Lemma finite_mul_inv (a c : float) :
  finite (a * c) = true -> finite a = true /\ finite c = true.
Proof.
  to_spec. unfold SF64mul, SFmul.
  destruct (Prim2SF a) as [sa | sa | | sa ma ea],
           (Prim2SF c) as [sc | sc | | sc mc ec];
    intros Hf; try discriminate; split; reflexivity.
Qed.

Lemma finite_add_inv (a c : float) :
  finite (a + c) = true -> finite a = true /\ finite c = true.
Proof.
  to_spec. unfold SF64add, SFadd.
  destruct (Prim2SF a) as [sa | sa | | sa ma ea],
           (Prim2SF c) as [sc | sc | | sc mc ec];
    try (destruct sa, sc);
    intros Hf; try discriminate; split; reflexivity.
Qed.

Lemma finite_sub_inv (a c : float) :
  finite (a - c) = true -> finite a = true /\ finite c = true.
Proof.
  to_spec. unfold SF64sub, SFsub.
  destruct (Prim2SF a) as [sa | sa | | sa ma ea],
           (Prim2SF c) as [sc | sc | | sc mc ec];
    try (destruct sa, sc);
    intros Hf; try discriminate; split; reflexivity.
Qed.

Lemma mul_zero_l (z g : float) :
  is_zero z = true -> finite g = true -> is_zero (z * g) = true.
Proof.
  to_spec. unfold SF64mul, SFmul.
  destruct (Prim2SF z) as [sa | sa | | sa ma ea],
           (Prim2SF g) as [sc | sc | | sc mc ec];
    intros Hz Hg; try discriminate; reflexivity.
Qed.

Lemma mul_zero_r (g z : float) :
  finite g = true -> is_zero z = true -> is_zero (g * z) = true.
Proof.
  to_spec. unfold SF64mul, SFmul.
  destruct (Prim2SF z) as [sa | sa | | sa ma ea],
           (Prim2SF g) as [sc | sc | | sc mc ec];
    intros Hg Hz; try discriminate; reflexivity.
Qed.

Lemma alike_refl (a : float) : alike a a.
Proof. left. reflexivity. Qed.


Lemma alike_trans (a b c : float) : alike a b -> alike b c -> alike a c.
Proof.
  intros [-> | [Ha Hb]] [<- | [Hb' Hc]]; try (left; reflexivity);
    right; auto.
Qed.

Lemma alike_finite (a b : float) : alike a b -> finite a = finite b.
Proof.
  intros [-> | [Ha Hb]]; [ reflexivity | ].
  rewrite (is_zero_finite _ Ha), (is_zero_finite _ Hb). reflexivity.
Qed.

Lemma alike_zeros (a b : float) :
  is_zero a = true -> is_zero b = true -> alike a b.
Proof. intros Ha Hb. right. split; assumption. Qed.

(** Subtracting a zero from a finite float leaves it, up to the sign of
    a zero. *)

Lemma sub_zero_alike (w z : float) :
  finite w = true -> is_zero z = true -> alike (w - z) w.
Proof.
  intros Hw Hz.
  destruct (is_zero w) eqn:Hwz.
  - right. split; [ | exact Hwz ].
    revert Hwz Hz. to_spec. unfold SF64sub, SFsub.
    destruct (Prim2SF w) as [sa | sa | | sa ma ea],
             (Prim2SF z) as [sc | sc | | sc mc ec];
      try (destruct sa, sc); intros Ha Hc; try discriminate; reflexivity.
  - left. apply Prim2SF_inj. revert Hw Hwz Hz. to_spec.
    unfold SF64sub, SFsub.
    destruct (Prim2SF w) as [sa | sa | | sa ma ea],
             (Prim2SF z) as [sc | sc | | sc mc ec];
      intros Ha Hb Hc; try discriminate; reflexivity.
Qed.

(** The operations of the step respect [alike]. *)

Lemma alike_mul_l (a a' c : float) : alike a a' -> alike (a * c) (a' * c).
Proof.
  intros [-> | [Ha Ha']]; [ apply alike_refl | ].
  destruct (finite c) eqn:Hc.
  - apply alike_zeros; apply mul_zero_l; assumption.
  - left. apply Prim2SF_inj. revert Ha Ha' Hc. to_spec.
    unfold SF64mul, SFmul.
    destruct (Prim2SF a) as [sa | sa | | sa ma ea],
             (Prim2SF a') as [sb | sb | | sb mb eb],
             (Prim2SF c) as [sc | sc | | sc mc ec];
      intros H1 H2 H3; try discriminate; reflexivity.
Qed.

Lemma alike_mul_r (c a a' : float) : alike a a' -> alike (c * a) (c * a').
Proof.
  intros [-> | [Ha Ha']]; [ apply alike_refl | ].
  destruct (finite c) eqn:Hc.
  - apply alike_zeros; apply mul_zero_r; assumption.
  - left. apply Prim2SF_inj. revert Ha Ha' Hc. to_spec.
    unfold SF64mul, SFmul.
    destruct (Prim2SF a) as [sa | sa | | sa ma ea],
             (Prim2SF a') as [sb | sb | | sb mb eb],
             (Prim2SF c) as [sc | sc | | sc mc ec];
      intros H1 H2 H3; try discriminate; reflexivity.
Qed.

Lemma add_zero_l (z z' c : float) :
  is_zero z = true -> is_zero z' = true -> alike (z + c) (z' + c).
Proof.
  intros Hz Hz'. destruct (is_zero c) eqn:Hc.
  - apply alike_zeros; revert Hz Hz' Hc; to_spec; unfold SF64add, SFadd;
      destruct (Prim2SF z) as [sa | sa | | sa ma ea],
               (Prim2SF z') as [sb | sb | | sb mb eb],
               (Prim2SF c) as [sc | sc | | sc mc ec];
      try (destruct sa, sb, sc);
      intros H1 H2 H3; try discriminate; reflexivity.
  - left. apply Prim2SF_inj. revert Hz Hz' Hc. to_spec.
    unfold SF64add, SFadd.
    destruct (Prim2SF z) as [sa | sa | | sa ma ea],
             (Prim2SF z') as [sb | sb | | sb mb eb],
             (Prim2SF c) as [sc | sc | | sc mc ec];
      intros H1 H2 H3; try discriminate; reflexivity.
Qed.

Lemma add_zero_r (c z z' : float) :
  is_zero z = true -> is_zero z' = true -> alike (c + z) (c + z').
Proof.
  intros Hz Hz'. destruct (is_zero c) eqn:Hc.
  - apply alike_zeros; revert Hz Hz' Hc; to_spec; unfold SF64add, SFadd;
      destruct (Prim2SF z) as [sa | sa | | sa ma ea],
               (Prim2SF z') as [sb | sb | | sb mb eb],
               (Prim2SF c) as [sc | sc | | sc mc ec];
      try (destruct sa, sb, sc);
      intros H1 H2 H3; try discriminate; reflexivity.
  - left. apply Prim2SF_inj. revert Hz Hz' Hc. to_spec.
    unfold SF64add, SFadd.
    destruct (Prim2SF z) as [sa | sa | | sa ma ea],
             (Prim2SF z') as [sb | sb | | sb mb eb],
             (Prim2SF c) as [sc | sc | | sc mc ec];
      intros H1 H2 H3; try discriminate; reflexivity.
Qed.

Lemma alike_add (a a' c c' : float) :
  alike a a' -> alike c c' -> alike (a + c) (a' + c').
Proof.
  intros [-> | [Ha Ha']] [-> | [Hc Hc']].
  - apply alike_refl.
  - apply add_zero_r; assumption.
  - apply add_zero_l; assumption.
  - apply alike_trans with (a' + c);
      [ apply add_zero_l | apply add_zero_r ]; assumption.
Qed.

Lemma alike_sub_l (a a' t : float) : alike a a' -> alike (a - t) (a' - t).
Proof.
  intros [-> | [Ha Ha']]; [ apply alike_refl | ].
  destruct (is_zero t) eqn:Ht.
  - apply alike_zeros; revert Ha Ha' Ht; to_spec; unfold SF64sub, SFsub;
      destruct (Prim2SF a) as [sa | sa | | sa ma ea],
               (Prim2SF a') as [sb | sb | | sb mb eb],
               (Prim2SF t) as [sc | sc | | sc mc ec];
      try (destruct sa, sb, sc);
      intros H1 H2 H3; try discriminate; reflexivity.
  - left. apply Prim2SF_inj. revert Ha Ha' Ht. to_spec.
    unfold SF64sub, SFsub.
    destruct (Prim2SF a) as [sa | sa | | sa ma ea],
             (Prim2SF a') as [sb | sb | | sb mb eb],
             (Prim2SF t) as [sc | sc | | sc mc ec];
      intros H1 H2 H3; try discriminate; reflexivity.
Qed.

Lemma alike_square (a a' : float) : alike a a' -> a * a = a' * a'.
Proof.
  intros [-> | [Ha Ha']]; [ reflexivity | ].
  apply Prim2SF_inj. revert Ha Ha'. to_spec. unfold SF64mul, SFmul.
  destruct (Prim2SF a) as [sa | sa | | sa ma ea],
           (Prim2SF a') as [sb | sb | | sb mb eb];
    try (destruct sa, sb); intros H1 H2; try discriminate; reflexivity.
Qed.

(** *** Python's [==] *)

Lemma SFcompare_finite_eq (s1 s2 : bool) (m1 m2 : positive) (e1 e2 : Z) :
  SFcompare (S754_finite s1 m1 e1) (S754_finite s2 m2 e2) = Some Eq ->
  s1 = s2 /\ m1 = m2 /\ e1 = e2.
Proof.
  cbn [SFcompare]. intros Hc.
  destruct s1, s2; try discriminate;
    destruct (e1 ?= e2)%Z eqn:He; try discriminate;
    apply Z.compare_eq in He;
    destruct (Pos.compare_cont Eq m1 m2) eqn:Hm; try discriminate;
    apply Pos.compare_eq in Hm; auto.
Qed.

Lemma alike_same_l (a a' t : float) : alike a a' -> same a t = same a' t.
Proof.
  intros [-> | [Ha Ha']]; [ reflexivity | ].
  unfold same. rewrite !eqb_spec. revert Ha Ha'. to_spec. unfold SFeqb.
  destruct (Prim2SF a) as [sa | sa | | sa ma ea],
           (Prim2SF a') as [sb | sb | | sb mb eb];
    intros H1 H2; try discriminate.
  destruct (Prim2SF t); reflexivity.
Qed.

Lemma alike_is_same (a b : float) :
  alike a b -> finite a = true -> same a b = true.
Proof.
  unfold same. rewrite eqb_spec. unfold SFeqb.
  intros [<- | [Ha Hb]].
  - to_spec. destruct (Prim2SF a) as [sa | sa | | sa ma ea];
      intros Hf; try discriminate; [ reflexivity | ].
    rewrite SFcompare_finite_refl. reflexivity.
  - intros _. revert Ha Hb. to_spec.
    destruct (Prim2SF a) as [sa | sa | | sa ma ea],
             (Prim2SF b) as [sb | sb | | sb mb eb];
      intros H1 H2; try discriminate; reflexivity.
Qed.

(** A finite target met exactly leaves a zero error. *)

Lemma same_sub_zero (a t : float) :
  same a t = true -> finite t = true -> is_zero (a - t) = true.
Proof.
  unfold same. rewrite eqb_spec. to_spec. unfold SFeqb.
  destruct (Prim2SF a) as [sa | sa | | sa ma ea] eqn:Ea,
           (Prim2SF t) as [sb | sb | | sb mb eb] eqn:Et;
    intros Hs Hf; try discriminate;
    try (cbn [SFcompare] in Hs; destruct sa; discriminate);
    try (cbn [SFcompare] in Hs; destruct sb; discriminate).
  - destruct sa, sb; reflexivity.
  - destruct (SFcompare (S754_finite sa ma ea) (S754_finite sb mb eb))
      as [[ | | ] | ] eqn:Hc; try discriminate.
    apply SFcompare_finite_eq in Hc. destruct Hc as (-> & -> & ->).
    unfold SF64sub, SFsub. rewrite Z.sub_diag. reflexivity.
Qed.

Lemma float_step (w b xv t lr : float) :
  step w b xv t lr =
  let err := w * xv + b - t in
  if finite err && is_infinity (err * err) then Raise OverflowError
  else Ok (w - lr * (2 * err * xv), b - lr * (2 * err), err * err).
Proof.
  rewrite step_is_step_spec. unfold step_spec. simpl.
  rewrite float_pow2_square.
  destruct (finite (w * xv + b - t)
            && is_infinity ((w * xv + b - t) * (w * xv + b - t)));
    reflexivity.
Qed.

(** *** The loop body on floats *)

Lemma float_loop_body (e : Env float) :
  loop_body e =
  let err := float_error e in
  if finite err && is_infinity (err * err) then Raise OverflowError
  else Ok (mkEnv (weight e - learning_rate e * (2 * err * x e))
                 (bias e - learning_rate e * (2 * err))
                 (x e) (target e) (weight e * x e + bias e) (err * err) err
                 (2 * err * x e) (2 * err) (learning_rate e)
                 (new_output e) (new_loss e) (losses e ++ [err * err])
                 (i e)).
Proof.
  rewrite loop_body_unfold. unfold loss_at, float_error. simpl.
  rewrite float_pow2_square.
  destruct (finite (weight e * x e + bias e - target e)
            && is_infinity ((weight e * x e + bias e - target e)
                            * (weight e * x e + bias e - target e)));
    reflexivity.
Qed.

Lemma is_zero_not_infinity (f : float) :
  is_zero f = true -> is_infinity f = false.
Proof.
  to_spec. destruct (Prim2SF f); intros Hz; try discriminate; reflexivity.
Qed.

Lemma square_of_zero (f : float) : is_zero f = true -> f * f = 0.
Proof.
  intros Hz. apply Prim2SF_inj. revert Hz. to_spec.
  unfold SF64mul, SFmul.
  destruct (Prim2SF f) as [s | s | | s m e]; intros Hz; try discriminate.
  destruct s; reflexivity.
Qed.

Lemma same_finite (a t : float) :
  same a t = true -> finite t = true -> finite a = true.
Proof.
  unfold same. rewrite eqb_spec. to_spec. unfold SFeqb.
  destruct (Prim2SF a) as [sa | sa | | sa ma ea],
           (Prim2SF t) as [sb | sb | | sb mb eb];
    intros Hs Hf; try discriminate; try reflexivity;
    cbn [SFcompare] in Hs; destruct sa; discriminate.
Qed.

Lemma alike_error (e e1 : Env float) :
  alike (weight e1) (weight e) -> alike (bias e1) (bias e) ->
  x e1 = x e -> target e1 = target e ->
  alike (float_error e1) (float_error e).
Proof.
  intros Hw Hb Hx Ht. unfold float_error. rewrite Hx, Ht.
  apply alike_sub_l, alike_add; [ apply alike_mul_l; exact Hw | exact Hb ].
Qed.

Lemma finite_grad_weight_inv (e : Env float) :
  finite (float_grad_weight e) = true ->
  finite (weight e) = true /\ finite (bias e) = true /\
  finite (2 * float_error e) = true.
Proof.
  intros Hgw. unfold float_grad_weight in Hgw.
  destruct (finite_mul_inv _ _ Hgw) as [Hgb _].
  destruct (finite_mul_inv _ _ Hgb) as [_ Hferr].
  destruct (finite_sub_inv _ _ Hferr) as [Hfout _].
  destruct (finite_add_inv _ _ Hfout) as [Hfwx Hfb].
  destruct (finite_mul_inv _ _ Hfwx) as [Hfw _].
  repeat split; assumption.
Qed.

(** On the solution line the body computes zeros and leaves the
    parameters alike. *)

Lemma solution_line_body (e : Env float) :
  same (weight e * x e + bias e) (target e) = true ->
  finite (target e) = true -> finite (learning_rate e) = true ->
  exists e',
    loop_body e = Ok e' /\
    loss e' = 0 /\ is_zero (error e') = true /\
    is_zero (grad_weight e') = true /\ is_zero (grad_bias e') = true /\
    alike (weight e') (weight e) /\ alike (bias e') (bias e) /\
    finite (weight e) = true /\ finite (bias e) = true /\
    x e' = x e /\ target e' = target e.
Proof.
  intros Hs Ht Hlr.
  pose proof (same_sub_zero _ _ Hs Ht) as Hz. fold (float_error e) in Hz.
  pose proof (same_finite _ _ Hs Ht) as Hfout.
  destruct (finite_add_inv _ _ Hfout) as [Hfwx Hfb].
  destruct (finite_mul_inv _ _ Hfwx) as [Hfw Hfx].
  assert (Hgb : is_zero (2 * float_error e) = true)
    by (apply mul_zero_r; [ reflexivity | exact Hz ]).
  assert (Hgw : is_zero (2 * float_error e * x e) = true)
    by (apply mul_zero_l; assumption).
  rewrite float_loop_body. cbv zeta.
  rewrite (is_zero_not_infinity _
             (mul_zero_l _ _ Hz (is_zero_finite _ Hz))), andb_false_r.
  eexists. split; [ reflexivity | ].
  cbn [loss error grad_weight grad_bias weight bias x target].
  split; [ apply square_of_zero; exact Hz | ].
  repeat split; try assumption.
  - apply sub_zero_alike; [ exact Hfw | apply mul_zero_r; assumption ].
  - apply sub_zero_alike; [ exact Hfb | apply mul_zero_r; assumption ].
Qed.

End Binary64.

(** ** Binary64 arithmetic, on any C library

    What follows holds whatever the library's [pow] returns. *)

Section AnyLibrary.

Context {L : Libm}.
Local Open Scope float_scope.

(** Past the special cases, the base handed to the library is the
    absolute value. *)

Lemma base_magnitude (v : float) :
  is_nan v = false -> (v =? 0) = false ->
  (if v <? 0 then - v else v) = abs v.
Proof.
  rewrite is_nan_spec, eqb_zero_spec, ltb_zero_spec. intros Hn Hz.
  apply Prim2SF_inj. rewrite abs_spec.
  destruct (Prim2SF v) as [s | s | | s m e] eqn:Hv; try discriminate.
  - destruct s; [ rewrite opp_spec, Hv | rewrite Hv ]; reflexivity.
  - destruct s; [ rewrite opp_spec, Hv | rewrite Hv ]; reflexivity.
Qed.

Lemma float_pow2_cases (v : float) :
  float_pow2 v =
  if is_nan v then Ok v
  else if is_infinity v then Ok (abs v)
  else if v =? 0 then Ok 0
  else if abs v =? 1 then Ok 1
  else if is_infinity (libm_pow2 (abs v)) then Raise OverflowError
  else Ok (libm_pow2 (abs v)).
Proof.
  unfold float_pow2.
  destruct (is_nan v) eqn:Hn; [ reflexivity | ].
  destruct (is_infinity v); [ reflexivity | ].
  destruct (v =? 0) eqn:Hz; [ reflexivity | ].
  cbv zeta. rewrite (base_magnitude v Hn Hz). reflexivity.
Qed.

Lemma abs_classes (v : float) :
  is_nan (abs v) = is_nan v /\ is_infinity (abs v) = is_infinity v /\
  (abs v =? 0) = (v =? 0) /\ abs (abs v) = abs v /\
  (is_nan v = true -> abs v = v).
Proof.
  rewrite !is_nan_spec, !is_infinity_spec, !eqb_zero_spec.
  assert (Hidem : abs (abs v) = abs v).
  { apply Prim2SF_inj. rewrite !abs_spec.
    destruct (Prim2SF v); reflexivity. }
  assert (Hnan : match Prim2SF v with S754_nan => true | _ => false end
                 = true -> abs v = v).
  { intros Hn. apply Prim2SF_inj. rewrite abs_spec.
    destruct (Prim2SF v); (discriminate || reflexivity). }
  rewrite abs_spec.
  destruct (Prim2SF v); repeat split; try reflexivity; assumption.
Qed.

(** [** 2] does not see the sign of its base, whatever the library: Python
    strips the sign before it asks. *)

Lemma float_pow2_abs (v : float) : float_pow2 (abs v) = float_pow2 v.
Proof.
  rewrite !float_pow2_cases.
  destruct (abs_classes v) as (Hn & Hi & Hz & Ha & Hv).
  rewrite Hn, Hi, Hz, Ha.
  destruct (is_nan v); [ rewrite Hv by reflexivity | ]; reflexivity.
Qed.

Lemma float_pow2_zero (z : float) : is_zero z = true -> float_pow2 z = Ok 0.
Proof.
  rewrite is_zero_spec, float_pow2_cases, is_nan_spec, is_infinity_spec,
    eqb_zero_spec.
  destruct (Prim2SF z); (discriminate || reflexivity).
Qed.

Lemma float_pow2_alike (a a' : float) :
  alike a a' -> float_pow2 a = float_pow2 a'.
Proof.
  intros [-> | [Ha Ha']]; [ reflexivity | ].
  rewrite !float_pow2_zero by assumption. reflexivity.
Qed.

(** [** 2] raises in one case only. *)

Lemma float_pow2_is_ok (v : float) :
  is_ok (float_pow2 v) =
  negb (finite v && negb (v =? 0) && negb (abs v =? 1)
        && is_infinity (libm_pow2 (abs v))).
Proof.
  rewrite float_pow2_cases, is_nan_spec, is_infinity_spec, finite_spec,
    eqb_zero_spec.
  destruct (Prim2SF v); cbn [is_ok andb negb]; try reflexivity.
  destruct (abs v =? 1); cbn [is_ok andb negb]; [ reflexivity | ].
  destruct (is_infinity (libm_pow2 (abs v))); reflexivity.
Qed.

(** The loop body and the step on floats. *)

Lemma loop_body_on_floats (e : Env float) :
  loop_body e =
  (l <- float_pow2 (float_error e) ;;
   let err := float_error e in
   Ok (mkEnv (weight e - learning_rate e * (2 * err * x e))
             (bias e - learning_rate e * (2 * err))
             (x e) (target e) (weight e * x e + bias e) l err
             (2 * err * x e) (2 * err) (learning_rate e)
             (new_output e) (new_loss e) (losses e ++ [l]) (i e))).
Proof. reflexivity. Qed.

Lemma step_on_floats (w b xv t lr : float) :
  step w b xv t lr =
  (l <- float_pow2 (w * xv + b - t) ;;
   let err := w * xv + b - t in
   Ok (w - lr * (2 * err * xv), b - lr * (2 * err), l)).
Proof. rewrite step_is_step_spec. reflexivity. Qed.

(** A learning rate of zero, on any library. *)

Lemma zero_rate_body_any (e e1 : Env float) (l : float) :
  is_zero (learning_rate e) = true ->
  finite (float_grad_weight e) = true ->
  float_pow2 (float_error e) = Ok l ->
  alike (weight e1) (weight e) -> alike (bias e1) (bias e) ->
  x e1 = x e -> target e1 = target e ->
  learning_rate e1 = learning_rate e ->
  exists e2,
    loop_body e1 = Ok e2 /\
    alike (weight e2) (weight e) /\ alike (bias e2) (bias e) /\
    x e2 = x e /\ target e2 = target e /\
    learning_rate e2 = learning_rate e /\
    losses e2 = losses e1 ++ [l].
Proof.
  intros Hlr Hgw Hsq Hw Hb Hx Ht Hl.
  pose proof (alike_error e e1 Hw Hb Hx Ht) as Herr.
  unfold float_grad_weight in Hgw.
  destruct (finite_mul_inv _ _ Hgw) as [Hgb Hfx].
  destruct (finite_mul_inv _ _ Hgb) as [_ Hferr].
  destruct (finite_sub_inv _ _ Hferr) as [Hfout _].
  destruct (finite_add_inv _ _ Hfout) as [Hfwx Hfb].
  destruct (finite_mul_inv _ _ Hfwx) as [Hfw _].
  rewrite loop_body_on_floats, (float_pow2_alike _ _ Herr), Hsq.
  cbn [bind]. cbv zeta.
  eexists. split; [ reflexivity | ]. cbn [weight bias x target
    learning_rate losses]. rewrite Hl, Hx.
  assert (Hgb1 : finite (2 * float_error e1) = true).
  { rewrite (alike_finite _ _ (alike_mul_r 2 _ _ Herr)). exact Hgb. }
  assert (Hgw1 : finite (2 * float_error e1 * x e) = true).
  { rewrite (alike_finite _ _
               (alike_mul_l _ _ (x e) (alike_mul_r 2 _ _ Herr))).
    exact Hgw. }
  repeat split; try assumption.
  - apply alike_trans with (weight e1); [ | exact Hw ].
    apply sub_zero_alike.
    + rewrite (alike_finite _ _ Hw). exact Hfw.
    + apply mul_zero_l; assumption.
  - apply alike_trans with (bias e1); [ | exact Hb ].
    apply sub_zero_alike.
    + rewrite (alike_finite _ _ Hb). exact Hfb.
    + apply mul_zero_l; assumption.
Qed.

Lemma zero_rate_run_any (e : Env float) (l : float) (n : nat) :
  is_zero (learning_rate e) = true ->
  finite (float_grad_weight e) = true ->
  float_pow2 (float_error e) = Ok l ->
  exists e',
    for_range (range n) e = Ok e' /\
    alike (weight e') (weight e) /\ alike (bias e') (bias e) /\
    x e' = x e /\ target e' = target e /\
    learning_rate e' = learning_rate e /\
    losses e' = losses e ++ repeat l n.
Proof.
  intros Hlr Hgw Hsq.
  induction n as [ | n (e1 & Hrun & Hw & Hb & Hx & Ht & Hl & Hls)].
  - exists e. cbn [range seq for_range repeat]. rewrite app_nil_r.
    repeat split; apply alike_refl.
  - destruct (zero_rate_body_any e (set_i n e1) l Hlr Hgw Hsq Hw Hb Hx Ht Hl)
      as (e2 & Hb2 & Hw2 & Hbb2 & Hx2 & Ht2 & Hl2 & Hls2).
    exists e2. rewrite for_range_succ, Hrun. cbn [bind].
    split; [ exact Hb2 | ]. repeat split; try assumption.
    rewrite Hls2. cbn [losses set_i]. rewrite Hls, <- app_assoc.
    f_equal. rewrite <- repeat_cons. reflexivity.
Qed.

End AnyLibrary.

(** ** The notebook's recorded outputs

    Run on the samples of [numpy_seed_42], the model prints, to three
    decimals, what the output cells of the notebook show: cell 3 (0.497,
    -0.138), cell 5 (1.352, 21.605), cell 7 (-4.648, -27.889, -9.296),
    cell 9 (0.776, -0.045, 2.282, 13.827, and 7.778 for the reduction) and
    cell 11 (1.408, 1.776, 6.000). *)

Lemma reference_walkthrough_prints_the_recorded_outputs :
  exists e,
    walkthrough 0.4967141530112327%float (-0.13826430117118466)%float
                unassigned = Ok e /\
    shown 3 0.4967141530112327%float = Some 497%Z /\
    shown 3 (-0.13826430117118466)%float = Some (-138)%Z /\
    shown 3 (output e) = Some 1352%Z /\
    shown 3 (loss e) = Some 21605%Z /\
    shown 3 (error e) = Some (-4648)%Z /\
    shown 3 (grad_weight e) = Some (-27889)%Z /\
    shown 3 (grad_bias e) = Some (-9296)%Z /\
    shown 3 (weight e) = Some 776%Z /\
    shown 3 (bias e) = Some (-45)%Z /\
    shown 3 (new_output e) = Some 2282%Z /\
    shown 3 (new_loss e) = Some 13827%Z /\
    shown 3 (PrimFloat.sub (loss e) (new_loss e)) = Some 7778%Z.
Proof.
  eexists. split; [ vm_compute; reflexivity | ].
  vm_compute. repeat split; reflexivity.
Qed.

Lemma reference_run_prints_the_recorded_outputs :
  exists e g,
    notebook numpy_seed_42 unassigned = Ok (e, g) /\ g = [] /\
    length (losses e) = 100%nat /\
    shown 3 (weight e) = Some 1408%Z /\
    shown 3 (bias e) = Some 1776%Z /\
    shown 3 (PrimFloat.add (PrimFloat.mul (weight e) (x e)) (bias e))
    = Some 6000%Z.
Proof.
  eexists. eexists. split; [ vm_compute; reflexivity | ].
  vm_compute. repeat split; reflexivity.
Qed.

(** Equality of parameters is [==], not identity of bits: a weight of
    [-0.0] can come back as [0.0], from a zero learning rate as well as
    from a state on the solution line. *)

Lemma a_negative_zero_may_come_back_positive :
  step (-0)%float 0%float 1%float 1%float 0%float
  = Ok (0%float, 0%float, 1%float) /\
  step (-0)%float 6%float (-1)%float 6%float 0.01%float
  = Ok (0%float, 6%float, 0%float) /\
  same (-0)%float 0%float = true /\
  Prim2SF (-0)%float = S754_zero true /\
  Prim2SF 0%float = S754_zero false.
Proof. repeat split; vm_compute; reflexivity. Qed.

(** C1.  One training step computes the prediction, the squared-error loss,
    the error, the two gradients and the updated parameters by the formulas
    of the specification, for every weight, bias, x, target and learning
    rate, whatever the kernel held before; the loss the loop stores and
    appends is the one computed from the parameters before the update. *)

Theorem step_computes_the_specified_quantities :
  forall (T : Type) `{Scalar T} (e0 : Env T) (w b xv t lr : T),
    step w b xv t lr = step_spec w b xv t lr /\
    step_in e0 w b xv t lr = step_spec w b xv t lr /\
    forall e : Env T,
      loop_body e =
      (r <- step_spec (weight e) (bias e) (x e) (target e) (learning_rate e) ;;
       let '(w', b', l) := r in
       let out := (weight e * x e + bias e)%sc in
       let err := (out - target e)%sc in
       Ok (mkEnv w' b' (x e) (target e) out l err
                 (lit_two * err * x e)%sc (lit_two * err)%sc
                 (learning_rate e) (new_output e) (new_loss e)
                 (losses e ++ [l]) (i e))).
Proof.
  intros T HT e0 w b xv t lr.
  split; [ apply step_is_step_spec | ].
  split; [ apply step_in_is_step_spec | ].
  intros e. rewrite loop_body_unfold. unfold step_spec, loss_at.
  destruct (pow2 (weight e * x e + bias e - target e)%sc); reflexivity.
Qed.

(** C7.  Cell 11 is the driving loop of the specification: it calls the
    step 100 times, each time on the parameters the call before returned
    and with the same x, target and learning rate (3.0, 6.0 and 0.01 in
    the notebook), and appends the loss of each call.  Run side by side
    they raise together or return together, and then the parameters and
    the list of losses of cell 11 are those of the driving loop, the list
    having exactly 100 entries.  The k-th entry is the loss computed from
    the parameters iteration k started with; a run that does not complete
    stops at the first iteration whose squared error raises.  The list is
    append-only and never read: starting the loop with any list in
    [losses] gives the same run with that list in front.  In exact
    arithmetic the run always completes, and so does the notebook on the
    samples of seed 42. *)

Theorem training_loop_fills_the_trace :
  (forall (T : Type) `{Scalar T} (w0 b0 : T) (e : Env T),
      cell11 w0 b0 e = for_range (seq 0 100) (loop_start w0 b0 e) /\
      match cell11 w0 b0 e,
            driving_loop 100 w0 b0 (x e) (target e) (learning_rate e) []
      with
      | Ok e', Ok (w, b, trace) =>
          weight e' = w /\ bias e' = b /\ losses e' = trace /\
          length trace = 100%nat /\
          x e' = x e /\ target e' = target e /\
          learning_rate e' = learning_rate e
      | Raise ex, Raise ex' => ex = ex'
      | _, _ => False
      end /\
      ((exists e', completes 100 (loop_start w0 b0 e) e' /\
                   length (losses e') = 100%nat)
       \/ (exists ex, stops 100 (loop_start w0 b0 e) ex)) /\
      (forall (G : Generator T) (s : Z) (e' : Env T) (g : rng_state G),
          notebook_from G s e = Ok (e', g) ->
          x e' = lit_x /\ target e' = lit_target /\
          learning_rate e' = lit_learning_rate /\
          length (losses e') = 100%nat /\
          driving_loop 100 (fst (snd (initial_parameters G s)))
                       (snd (snd (initial_parameters G s)))
                       lit_x lit_target lit_learning_rate []
          = Ok (weight e', bias e', losses e')) /\
      (forall (idx : list nat) (l : list T),
          for_range idx (set_losses l e) =
          (e' <- for_range idx (set_losses [] e) ;;
           Ok (set_losses (l ++ losses e') e')))) /\
  (forall (w0 b0 : R) (e : Env R),
      exists e', completes 100 (loop_start w0 b0 e) e' /\
                 length (losses e') = 100%nat) /\
  (exists e g,
      notebook numpy_seed_42 unassigned = Ok (e, g) /\
      length (losses e) = 100%nat /\
      x e = 3%float /\ target e = 6%float /\
      learning_rate e = 0.01%float).
Proof.
  assert (Hlen : forall (T : Type) (HT : Scalar T) (w b : T) (e1 e' : Env T),
             completes 100 (loop_start w b e1) e' ->
             length (losses e') = 100%nat).
  { intros T HT w b e1 e' (_ & _ & _ & _ & tr & Hls & Hl & _).
    rewrite Hls, length_app, Hl. reflexivity. }
  assert (Hout : forall (T : Type) (HT : Scalar T) (w b : T) (e1 : Env T),
             (exists e', completes 100 (loop_start w b e1) e' /\
                         length (losses e') = 100%nat)
             \/ (exists ex, stops 100 (loop_start w b e1) ex)).
  { intros T HT w b e1.
    destruct (for_range_outcome 100 (loop_start w b e1)) as [(e' & Hc) | Hs].
    - left. exists e'. split; [ exact Hc | ].
      exact (Hlen T HT w b e1 e' Hc).
    - right. exact Hs. }
  assert (Hdrive : forall (T : Type) (HT : Scalar T) (w b : T) (e1 : Env T),
             match cell11 w b e1,
                   driving_loop 100 w b (x e1) (target e1) (learning_rate e1) []
             with
             | Ok e', Ok (w', b', trace) =>
                 weight e' = w' /\ bias e' = b' /\ losses e' = trace /\
                 length trace = 100%nat /\
                 x e' = x e1 /\ target e' = target e1 /\
                 learning_rate e' = learning_rate e1
             | Raise ex, Raise ex' => ex = ex'
             | _, _ => False
             end).
  { intros T HT w b e1.
    pose proof (for_range_is_driving_loop (range 100) (loop_start w b e1))
      as Hd.
    change (length (range 100)) with 100%nat in Hd.
    change (for_range (range 100) (loop_start w b e1)) with (cell11 w b e1)
      in Hd.
    cbn [weight bias x target learning_rate losses loop_start set_losses
         set_bias set_weight] in Hd.
    destruct (cell11 w b e1) as [e' | ex];
      destruct (driving_loop 100 w b (x e1) (target e1) (learning_rate e1) [])
      as [[[w' b'] trace] | ex'] eqn:Hdl; try exact Hd.
    destruct Hd as (Hw & Hb & Hls & Hx & Ht & Hlr).
    repeat split; try assumption.
    apply driving_loop_length in Hdl. exact Hdl. }
  split; [ | split ].
  - intros T HT w0 b0 e.
    split; [ reflexivity | ]. split; [ apply Hdrive | ].
    split; [ apply Hout | ].
    split; [ | intros idx l; apply for_range_losses_frame ].
    intros G s e' g Hn.
    destruct (notebook_from_ok _ _ _ _ _ Hn)
      as (_ & e9 & Hx & Ht & Hlr & H11).
    pose proof (Hdrive T HT (fst (snd (initial_parameters G s)))
                  (snd (snd (initial_parameters G s))) e9) as Hd.
    rewrite H11, Hx, Ht, Hlr in Hd.
    destruct (driving_loop 100 _ _ lit_x lit_target lit_learning_rate [])
      as [[[w' b'] trace] | ex']; [ | contradiction ].
    destruct Hd as (Hw & Hb & Hls & Hl & Hx' & Ht' & Hlr').
    rewrite Hls, Hw, Hb. repeat split; try assumption; congruence.
  - intros w0 b0 e.
    destruct (real_completes 100 (loop_start w0 b0 e)) as (e' & Hc).
    exists e'. split; [ exact Hc | exact (Hlen R _ w0 b0 e e' Hc) ].
  - eexists. eexists. split; [ vm_compute; reflexivity | ].
    vm_compute. repeat split; reflexivity.
Qed.

(** A learning rate too small to act: from the quoted state and with the
    rate 1e-30 the body returns the parameters it was given. *)

Section TinyRate.
Local Open Scope float_scope.

Lemma tiny_rate_body (e : Env float) :
  weight e = 0.497 -> bias e = -0.138 -> x e = 3 -> target e = 6 ->
  learning_rate e = 1e-30 ->
  exists e',
    loop_body e = Ok e' /\
    weight e' = 0.497 /\ bias e' = -0.138 /\ x e' = 3 /\ target e' = 6 /\
    learning_rate e' = 1e-30 /\
    losses e' = losses e ++ [21.594609000000002].
Proof.
  intros Hw Hb Hx Ht Hlr. rewrite float_loop_body. unfold float_error.
  rewrite Hw, Hb, Hx, Ht, Hlr. cbv zeta.
  assert (Herr : 0.497 * 3 + -0.138 - 6 = -4.647) by (vm_compute; reflexivity).
  rewrite Herr.
  assert (Hsq : -4.647 * -4.647 = 21.594609000000002)
    by (vm_compute; reflexivity).
  rewrite Hsq.
  assert (Hc : finite (-4.647) && is_infinity 21.594609000000002 = false)
    by (vm_compute; reflexivity).
  rewrite Hc.
  eexists. split; [ reflexivity | ].
  cbn [weight bias x target learning_rate losses].
  repeat split; vm_compute; reflexivity.
Qed.

Lemma tiny_rate_run (n : nat) (e : Env float) :
  weight e = 0.497 -> bias e = -0.138 -> x e = 3 -> target e = 6 ->
  learning_rate e = 1e-30 ->
  exists e',
    for_range (range n) e = Ok e' /\
    weight e' = 0.497 /\ bias e' = -0.138 /\ x e' = 3 /\ target e' = 6 /\
    learning_rate e' = 1e-30 /\
    losses e' = losses e ++ repeat 21.594609000000002 n.
Proof.
  intros Hw Hb Hx Ht Hlr.
  induction n as [ | n (e1 & Hrun & Hw1 & Hb1 & Hx1 & Ht1 & Hlr1 & Hls1)].
  - exists e. cbn [range seq for_range repeat]. rewrite app_nil_r.
    repeat split; assumption.
  - destruct (tiny_rate_body (set_i n e1) Hw1 Hb1 Hx1 Ht1 Hlr1)
      as (e2 & Hbody & Hw2 & Hb2 & Hx2 & Ht2 & Hlr2 & Hls2).
    exists e2. rewrite for_range_succ, Hrun. cbn [bind].
    repeat split; try assumption.
    rewrite Hls2. cbn [losses set_i]. rewrite Hls1, <- app_assoc.
    f_equal. rewrite <- repeat_cons. reflexivity.
Qed.

End TinyRate.

(** C4, as claimed, fails on binary64.  The learning rate 1e-30 is positive
    and below 1/10, yet from the quoted state the update it asks for is
    smaller than half a unit in the last place of either parameter: every
    iteration returns the parameters it was given, and the loss stays at
    21.594609 however long the loop runs. *)

Lemma a_tiny_positive_rate_never_trains :
  PrimFloat.ltb 0 1e-30 = true /\ PrimFloat.ltb 1e-30 0.1 = true /\
  forall n : nat,
    exists e',
      for_range (range n) (step_env unassigned 0.497 (-0.138) 3 6 1e-30)%float
      = Ok e' /\
      weight e' = 0.497%float /\ bias e' = (-0.138)%float /\
      losses e' = repeat 21.594609000000002%float n.
Proof.
  split; [ reflexivity | ]. split; [ reflexivity | ].
  intros n.
  destruct (tiny_rate_run n (step_env unassigned 0.497 (-0.138) 3 6 1e-30)%float)
    as (e' & Hrun & Hw & Hb & _ & _ & _ & Hls); try reflexivity.
  exists e'. repeat split; assumption.
Qed.

(** C4, amended.  In exact arithmetic, on the sample (3, 6) and for every
    learning rate strictly between 0 and 1/10, iterating the step drives
    the loss to 0 and the prediction to the target, and the parameters
    converge to a pair on the line [weight * 3 + bias = 6].  Which pair is
    fixed by the start, since [weight - 3 * bias] never changes: it is
    (2, 0) only for starts with [weight - 3 * bias = 2]. *)

Theorem training_converges_to_the_solution_line :
  forall e : Env R,
    x e = 3%R -> target e = 6%R ->
    (0 < learning_rate e < 1 / 10)%R ->
    exists winf binf : R,
      (winf * 3 + binf = 6)%R /\
      (winf - 3 * binf = weight e - 3 * bias e)%R /\
      ((weight e - 3 * bias e <> 2)%R -> ~ (winf = 2 /\ binf = 0)%R) /\
      converges_to e winf binf.
Proof.
  intros e Hx Ht Hlr.
  set (c := (weight e - 3 * bias e)%R).
  exists ((18 + c) / 10)%R, ((6 - 3 * c) / 10)%R.
  split; [ field | ]. split; [ field | ].
  split; [ intros Hc [Hw Hb]; apply Hc; fold c; lra | ].
  intros eps Heps.
  assert (Hmin : (0 < Rmin eps 1)%R) by (apply Rmin_pos; lra).
  destruct (geometric_vanishes (contraction (learning_rate e) (x e))
              (residual e) (Rmin eps 1)) as [N HN]; [ | exact Hmin | ].
  { rewrite Hx. apply contraction_small. exact Hlr. }
  exists N. intros n Hn. specialize (HN n Hn).
  destruct (real_for_range n e) as (en & Hrun & Hxn & Htn & _ & Hres & Hinv).
  rewrite <- Hres in HN.
  exists en, (residual en * residual en)%R.
  split; [ exact Hrun | ]. split; [ apply real_loss_at | ].
  unfold residual in HN. rewrite Hxn, Htn in HN. rewrite Hx in Hinv.
  fold c in Hinv. rewrite Hx, Ht in HN |- *.
  unfold residual. rewrite Hxn, Htn, Hx, Ht.
  set (rho := (weight en * 3 + bias en - 6)%R) in *.
  destruct (Rabs_def2 _ _ HN) as [Hhi Hlo].
  pose proof (Rmin_l eps 1) as Hl. pose proof (Rmin_r eps 1) as Hr.
  split; [ split; nra | ].
  split; [ apply Rabs_def1; lra | ].
  unfold rho in Hhi, Hlo.
  split; apply Rabs_def1; lra.
Qed.

Lemma training_converges_witness :
  exists winf binf : R,
    (winf * 3 + binf = 6)%R /\
    (winf - 3 * binf = 0 - 3 * 0)%R /\
    ((0 - 3 * 0 <> 2)%R -> ~ (winf = 2 /\ binf = 0)%R) /\
    converges_to (blank 0 0 3 6 (1 / 100))%R winf binf.
Proof.
  apply (training_converges_to_the_solution_line
           (blank 0 0 3 6 (1 / 100))%R); simpl; try reflexivity; lra.
Defined.

(** C10.  In exact arithmetic one step multiplies the error of the
    prediction by [1 - 2 * learning_rate * (x^2 + 1)], whatever the five
    inputs.  With x = 3 and learning_rate = 1/100 the factor is 8/10: the
    loss of the next step is 64/100 of the loss of this one, and strictly
    smaller unless it is zero. *)

Theorem step_contracts_the_error :
  (forall w b xv t lr : R,
      exists w' b' l w'' b'' l' : R,
        step w b xv t lr = Ok (w', b', l) /\
        step w' b' xv t lr = Ok (w'', b'', l') /\
        (w' * xv + b' - t
         = (1 - 2 * lr * (xv ^ 2 + 1)) * (w * xv + b - t))%R /\
        (l = (w * xv + b - t) ^ 2)%R /\
        (l' = (1 - 2 * lr * (xv ^ 2 + 1)) ^ 2 * l)%R) /\
  (1 - 2 * lit_learning_rate * (lit_x ^ 2 + 1) = 8 / 10)%R /\
  (forall w b t : R,
      exists w' b' l w'' b'' l' : R,
        step w b lit_x t lit_learning_rate = Ok (w', b', l) /\
        step w' b' lit_x t lit_learning_rate = Ok (w'', b'', l') /\
        (w' * lit_x + b' - t = 8 / 10 * (w * lit_x + b - t))%R /\
        (l' = 64 / 100 * l)%R /\
        (l <> 0%R -> (l' < l)%R)).
Proof.
  split; [ | split ].
  - intros w b xv t lr. unfold step, step_in.
    rewrite !loop_body_unfold. unfold loss_at. simpl.
    do 6 eexists.
    split; [ reflexivity | ]. split; [ reflexivity | ].
    split; [ ring | ]. split; ring.
  - simpl. field.
  - intros w b t. unfold step, step_in.
    rewrite !loop_body_unfold. unfold loss_at. simpl.
    do 6 eexists.
    split; [ reflexivity | ]. split; [ reflexivity | ].
    split; [ field | ]. split; [ field | ].
    intros Hl.
    assert (Hpos : (0 < (w * 3 + b - t) * (w * 3 + b - t))%R).
    { destruct (Req_dec (w * 3 + b - t) 0) as [H0 | H0].
      - exfalso. apply Hl. rewrite H0. ring.
      - nra. }
    nra.
Qed.

(** C2, as claimed, fails on the loss.  In the quoted state the loss is
    21.594609...: it is not within half a unit of the second decimal of
    21.60, let alone of the third, and prints as 21.59 and 21.595. *)

Lemma quoted_loss_is_not_21_60 :
  exists e,
    cell5 (quoted_state unassigned) = Ok e /\
    close 2 (loss e) (2160 # 100) = false /\
    close 3 (loss e) (2160 # 100) = false /\
    shown 2 (loss e) = Some 2159%Z /\
    shown 3 (loss e) = Some 21595%Z.
Proof.
  eexists. split; [ vm_compute; reflexivity | ].
  vm_compute. repeat split; reflexivity.
Qed.

(** C2, amended.  In the quoted state (x = 3.0, target = 6.0,
    weight = 0.497, bias = -0.138), whatever the kernel held before, the
    forward and backward passes give, to three decimals, output 1.353,
    loss 21.595, error -4.647, grad_weight -27.882 and grad_bias -9.294;
    to two decimals the gradients are -27.88 and -9.29 and the loss is
    21.59. *)

Theorem quoted_state_quantities :
  forall e0 : Env float,
    exists e5,
      cell5 (quoted_state e0) = Ok e5 /\
      x e5 = 3%float /\ target e5 = 6%float /\
      weight e5 = 0.497%float /\ bias e5 = (-0.138)%float /\
      let e := cell7 e5 in
      shown 3 (output e) = Some 1353%Z /\
      shown 3 (loss e) = Some 21595%Z /\
      shown 3 (error e) = Some (-4647)%Z /\
      shown 3 (grad_weight e) = Some (-27882)%Z /\
      shown 3 (grad_bias e) = Some (-9294)%Z /\
      shown 2 (loss e) = Some 2159%Z /\
      shown 2 (grad_weight e) = Some (-2788)%Z /\
      shown 2 (grad_bias e) = Some (-929)%Z.
Proof.
  intros e0. eexists. split; [ vm_compute; reflexivity | ].
  vm_compute. repeat split; reflexivity.
Qed.

(** C3, as claimed, fails on the two losses it quotes.  After the step
    from the quoted state the new loss is 13.82054976..., which prints as
    13.82 and is not within half a unit of the second decimal of 13.83;
    the old loss prints as 21.59, not 21.60. *)

Lemma quoted_losses_are_not_13_83_and_21_60 :
  exists e,
    walkthrough 0.497%float (-0.138)%float unassigned = Ok e /\
    close 2 (new_loss e) (1383 # 100) = false /\
    close 2 (loss e) (2160 # 100) = false /\
    shown 2 (new_loss e) = Some 1382%Z /\
    shown 2 (loss e) = Some 2159%Z.
Proof.
  eexists. split; [ vm_compute; reflexivity | ].
  vm_compute. repeat split; reflexivity.
Qed.

(** C3, amended.  From weight = 0.497 and bias = -0.138 with x = 3.0 and
    target = 6.0, the step of cell 9, with learning_rate = 0.01, gives
    weight 0.776 and bias -0.045 to three decimals, and the loss at the
    new parameters is strictly below the loss at the old ones: 13.82
    against 21.59 to two decimals (13.821 against 21.595 to three). *)

Theorem one_step_from_the_quoted_state :
  forall e0 : Env float,
    exists e,
      walkthrough 0.497%float (-0.138)%float e0 = Ok e /\
      learning_rate e = 0.01%float /\
      shown 3 (weight e) = Some 776%Z /\
      shown 3 (bias e) = Some (-45)%Z /\
      PrimFloat.ltb (new_loss e) (loss e) = true /\
      shown 2 (new_loss e) = Some 1382%Z /\
      shown 2 (loss e) = Some 2159%Z /\
      shown 3 (new_loss e) = Some 13821%Z /\
      shown 3 (loss e) = Some 21595%Z.
Proof.
  intros e0. eexists. split; [ vm_compute; reflexivity | ].
  vm_compute. repeat split; reflexivity.
Qed.

(** C8, as claimed, fails.  A finite prediction error whose square leaves
    the binary64 range makes [** 2] raise: the step from weight 1e200 on
    the sample (1, 0) raises [OverflowError]; with the learning rate 1e200
    the step from the quoted state returns, but the step after it raises;
    and with the learning rate 10 the loop of the reference run, instead
    of diverging, stops with [OverflowError] in its 68th iteration.  A
    rate that is not positive fares no better: with -1e200 the step after
    the first raises as well. *)

Lemma step_raises_overflow_error :
  step 1e200%float 0%float 1%float 0%float 0.01%float = Raise OverflowError /\
  (exists w' b' l,
      step 0.497%float (-0.138)%float 3%float 6%float 1e200%float
      = Ok (w', b', l) /\
      step w' b' 3%float 6%float 1e200%float = Raise OverflowError) /\
  (exists e67,
      for_range (range 67)
        (loop_start 0.6476885381006925%float 1.5230298564080254%float
           (set_learning_rate 10%float (quoted_state unassigned)))
      = Ok e67 /\
      length (losses e67) = 67%nat /\
      loop_body e67 = Raise OverflowError) /\
  cell11 0.6476885381006925%float 1.5230298564080254%float
         (set_learning_rate 10%float (quoted_state unassigned))
  = Raise OverflowError /\
  (exists w' b' l,
      step 0.497%float (-0.138)%float 3%float 6%float (-1e200)%float
      = Ok (w', b', l) /\
      step w' b' 3%float 6%float (-1e200)%float = Raise OverflowError).
Proof.
  split; [ vm_compute; reflexivity | ]. split; [ | split; [ | split ] ].
  - do 3 eexists. split; vm_compute; reflexivity.
  - eexists. split; [ vm_compute; reflexivity | ].
    split; vm_compute; reflexivity.
  - vm_compute. reflexivity.
  - do 3 eexists. split; vm_compute; reflexivity.
Qed.

(** In exact arithmetic a learning rate that is not positive gives a next
    loss that is not smaller. *)

Lemma real_nonpositive_rate (w b xv t lr : R) :
  (lr <= 0)%R ->
  exists w' b' l w'' b'' l' : R,
    step w b xv t lr = Ok (w', b', l) /\
    step w' b' xv t lr = Ok (w'', b'', l') /\
    (l <= l')%R.
Proof.
  intros Hlr. rewrite step_is_step_spec. unfold step_spec.
  cbn [pow2 mul add sub lit_two real_scalar bind].
  do 6 eexists. split; [ reflexivity | ].
  rewrite step_is_step_spec. unfold step_spec.
  cbn [pow2 mul add sub lit_two real_scalar bind].
  split; [ reflexivity | ].
  set (r := (w * xv + b - t)%R).
  set (c := (1 - 2 * lr * (xv * xv + 1))%R).
  assert (Hnext : ((w - lr * (2 * r * xv)) * xv + (b - lr * (2 * r)) - t
                   = c * r)%R) by (unfold c, r; ring).
  rewrite Hnext.
  assert (Hc : (1 <= c)%R).
  { unfold c. assert (0 <= xv * xv)%R by apply Rle_0_sqr. nra. }
  assert (Hr : (0 <= r * r)%R) by apply Rle_0_sqr.
  assert (Hcc : (1 <= c * c)%R) by nra.
  replace (c * r * (c * r))%R with (c * c * (r * r))%R by ring.
  nra.
Qed.

(** C8, amended.  The step has no validation branch and raises in one case
    only, [OverflowError] from [** 2]: when the prediction error is finite,
    not zero, not of magnitude 1, and the C library's [pow] of its
    magnitude is infinite; on the correctly rounded library, when the
    error is finite and its square leaves the binary64 range.  When the
    step returns, the parameters are those of the update and the loss is
    [** 2] of the error, NaN and infinities included.  Whether it raises
    does not depend on the learning rate: a rate that is not positive is
    accepted like any other, and in exact arithmetic the loss of the next
    step is then not smaller (on the quoted state with the rate -0.01 it
    grows on binary64 too). *)

Theorem step_raises_only_on_overflow :
  (forall (L : Libm) (w b xv t lr : float),
      let err := (w * xv + b - t)%float in
      is_ok (step w b xv t lr)
      = negb (finite err && negb (PrimFloat.eqb err 0)
              && negb (PrimFloat.eqb (abs err) 1)
              && PrimFloat.is_infinity (libm_pow2 (abs err))) /\
      (forall w' b' l,
          step w b xv t lr = Ok (w', b', l) ->
          w' = (w - lr * (2 * err * xv))%float /\
          b' = (b - lr * (2 * err))%float /\
          pow2 err = Ok l) /\
      (forall lr' : float,
          is_ok (step w b xv t lr') = is_ok (step w b xv t lr))) /\
  (forall w b xv t lr : float,
      let err := (w * xv + b - t)%float in
      is_ok (step w b xv t lr)
      = negb (finite err && PrimFloat.is_infinity (err * err)%float)) /\
  (forall w b xv t lr : R,
      (lr <= 0)%R ->
      exists w' b' l w'' b'' l' : R,
        step w b xv t lr = Ok (w', b', l) /\
        step w' b' xv t lr = Ok (w'', b'', l') /\
        (l <= l')%R) /\
  (exists w' b' l w'' b'' l',
      step 0.497%float (-0.138)%float 3%float 6%float (-0.01)%float
      = Ok (w', b', l) /\
      step w' b' 3%float 6%float (-0.01)%float = Ok (w'', b'', l') /\
      PrimFloat.ltb l l' = true).
Proof.
  split; [ | split; [ | split ] ].
  - intros L w b xv t lr err.
    assert (Hok : forall r : float,
               is_ok (step w b xv t r) = is_ok (float_pow2 err)).
    { intros r. rewrite step_on_floats. fold err.
      destruct (float_pow2 err); reflexivity. }
    split; [ rewrite Hok; apply float_pow2_is_ok | ].
    split.
    + intros w' b' l. rewrite step_on_floats. fold err.
      change (pow2 err) with (float_pow2 err).
      destruct (float_pow2 err) as [l0 | ex']; cbn [bind];
        [ | discriminate ].
      cbv zeta. intros Hr. injection Hr as <- <- <-. repeat split.
    + intros lr'. rewrite !Hok. reflexivity.
  - intros w b xv t lr err. rewrite float_step. cbv zeta. fold err.
    destruct (finite err && PrimFloat.is_infinity (err * err)%float);
      reflexivity.
  - apply real_nonpositive_rate.
  - do 6 eexists. split; [ vm_compute; reflexivity | ].
    split; vm_compute; reflexivity.
Qed.

(** C5, as claimed, fails.  With learning_rate = 0 and the finite inputs
    weight = 1e200, x = 1e200, bias = target = 0, the prediction overflows
    to infinity, so do the gradients, zero times infinity is NaN, and both
    parameters come back NaN; with x = 1 instead the squared error
    overflows and the step raises. *)

Lemma zero_rate_step_can_lose_the_parameters :
  step 1e200%float 0%float 1e200%float 0%float 0%float
  = Ok (nan, nan, infinity) /\
  same nan 1e200%float = false /\ same nan 0%float = false /\
  step 1e200%float 0%float 1%float 0%float 0%float = Raise OverflowError.
Proof. repeat split; vm_compute; reflexivity. Qed.

(** C5, amended.  On any C library: when [** 2] of the first error does
    not raise and the gradient of the weight is finite, a step with
    learning_rate = 0 returns parameters equal ([==]) to the ones it was
    given, and the loop run any number [n] of times with that rate ends
    with parameters equal to the first ones, having appended [n] times the
    same loss, the one of the first step.  The witness runs on weight
    2.759, where glibc's [pow] is not the rounded square. *)

Theorem zero_learning_rate_keeps_the_parameters :
  forall (L : Libm) (e : Env float) (n : nat),
    same (learning_rate e) 0%float = true ->
    finite (float_grad_weight e) = true ->
    is_ok (loss_at e) = true ->
    exists l : float,
      loss_at e = Ok l /\
      (exists w' b',
          step (weight e) (bias e) (x e) (target e) (learning_rate e)
          = Ok (w', b', l) /\
          same w' (weight e) = true /\ same b' (bias e) = true) /\
      (exists e',
          for_range (range n) e = Ok e' /\
          same (weight e') (weight e) = true /\
          same (bias e') (bias e) = true /\
          losses e' = losses e ++ repeat l n).
Proof.
  intros L e n Hlr Hgw Hok.
  destruct (finite_grad_weight_inv e Hgw) as (Hfw & Hfb & Hgb).
  change (loss_at e) with (float_pow2 (float_error e)) in *.
  destruct (float_pow2 (float_error e)) as [l | ex] eqn:Hl;
    [ | discriminate ].
  exists l. split; [ reflexivity | ]. split.
  - destruct (zero_rate_body_any e e l Hlr Hgw Hl (alike_refl _) (alike_refl _)
                eq_refl eq_refl eq_refl)
      as (e2 & Hb2 & Hw2 & Hbb2 & _).
    rewrite loop_body_on_floats, Hl in Hb2. cbn [bind] in Hb2.
    cbv zeta in Hb2. injection Hb2 as <-.
    cbn [weight bias] in Hw2, Hbb2.
    rewrite step_on_floats. fold (float_error e). rewrite Hl. cbn [bind].
    cbv zeta.
    eexists. eexists. split; [ reflexivity | ].
    split; apply alike_is_same; try assumption.
    + rewrite (alike_finite _ _ Hw2). exact Hfw.
    + rewrite (alike_finite _ _ Hbb2). exact Hfb.
  - destruct (zero_rate_run_any e l n Hlr Hgw Hl)
      as (e' & Hrun & Hw & Hb & _ & _ & _ & Hls).
    exists e'. split; [ exact Hrun | ].
    split; [ | split; [ | exact Hls ] ]; apply alike_is_same;
      try assumption.
    + rewrite (alike_finite _ _ Hw). exact Hfw.
    + rewrite (alike_finite _ _ Hb). exact Hfb.
Qed.

Section ZeroRateOnGlibc.

#[local] Existing Instance glibc_at_three_bases | 0.

Lemma zero_learning_rate_witness :
  (exists l : float,
      loss_at (blank 2.759 0 1 0 0)%float = Ok l /\
      (exists w' b',
          step 2.759%float 0%float 1%float 0%float 0%float = Ok (w', b', l) /\
          same w' 2.759%float = true /\ same b' 0%float = true) /\
      (exists e',
          for_range (range 3) (blank 2.759 0 1 0 0)%float = Ok e' /\
          same (weight e') 2.759%float = true /\
          same (bias e') 0%float = true /\
          losses e' = [] ++ repeat l 3)) /\
  loss_at (blank 2.759 0 1 0 0)%float = Ok 7.612080999999999%float.
Proof.
  split; [ | vm_compute; reflexivity ].
  apply (zero_learning_rate_keeps_the_parameters glibc_at_three_bases
           (blank 2.759 0 1 0 0)%float 3);
    vm_compute; reflexivity.
Defined.

End ZeroRateOnGlibc.

(** C9.  A state on the solution line is a fixed point of the step.  For
    a finite target and a finite learning rate, whenever the prediction
    [weight * x + bias] equals the target, the body computes a loss of 0,
    an error and two gradients equal to 0, returns parameters equal
    ([==]) to the ones it was given, and the new state is on the line
    again. *)

Theorem solution_line_is_fixed :
  forall e : Env float,
    same (weight e * x e + bias e)%float (target e) = true ->
    finite (target e) = true ->
    finite (learning_rate e) = true ->
    exists e',
      loop_body e = Ok e' /\
      loss e' = 0%float /\
      same (error e') 0%float = true /\
      same (grad_weight e') 0%float = true /\
      same (grad_bias e') 0%float = true /\
      same (weight e') (weight e) = true /\
      same (bias e') (bias e) = true /\
      same (weight e' * x e' + bias e')%float (target e') = true.
Proof.
  intros e Hs Ht Hlr.
  destruct (solution_line_body e Hs Ht Hlr)
    as (e' & Hb & Hl & He & Hgw & Hgb & Hw & Hbi & Hfw & Hfb & Hx & Htg).
  exists e'. split; [ exact Hb | ]. split; [ exact Hl | ].
  split; [ exact He | ]. split; [ exact Hgw | ]. split; [ exact Hgb | ].
  split; [ | split ].
  - apply alike_is_same; [ exact Hw | ].
    rewrite (alike_finite _ _ Hw). exact Hfw.
  - apply alike_is_same; [ exact Hbi | ].
    rewrite (alike_finite _ _ Hbi). exact Hfb.
  - rewrite Hx, Htg, <- Hs. apply alike_same_l.
    apply alike_add; [ apply alike_mul_l; exact Hw | exact Hbi ].
Qed.

Lemma solution_line_witness :
  exists e',
    loop_body (blank 1.5 1.5 3 6 0.01)%float = Ok e' /\
    loss e' = 0%float /\
    same (error e') 0%float = true /\
    same (grad_weight e') 0%float = true /\
    same (grad_bias e') 0%float = true /\
    same (weight e') 1.5%float = true /\
    same (bias e') 1.5%float = true /\
    same (weight e' * x e' + bias e')%float (target e') = true.
Proof.
  apply (solution_line_is_fixed (blank 1.5 1.5 3 6 0.01)%float);
    vm_compute; reflexivity.
Defined.

(** * Further properties *)

(** ** The cells as a whole, over any scalars *)

Section Cells.

Context {T : Type} `{Scalar T}.
Local Open Scope scalar_scope.

Lemma loop_body_set_i (k : nat) (e : Env T) :
  loop_body (set_i k e) = (e' <- loop_body e ;; Ok (set_i k e')).
Proof.
  rewrite !loop_body_unfold. unfold loss_at. simpl.
  destruct (pow2 (weight e * x e + bias e - target e)); reflexivity.
Qed.

Lemma for_range_concat (idx1 idx2 : list nat) (e : Env T) :
  for_range (idx1 ++ idx2) e = (e1 <- for_range idx1 e ;; for_range idx2 e1).
Proof.
  revert e. induction idx1 as [ | k idx1 IH]; intros e; simpl.
  - reflexivity.
  - destruct (loop_body (set_i k e)) as [e1 | ex]; simpl;
      [ apply IH | reflexivity ].
Qed.

Lemma for_range_indices (idx idx' : list nat) (e1 e2 : Env T) :
  length idx = length idx' ->
  set_i 0 e1 = set_i 0 e2 ->
  untouched_by_index (for_range idx e1)
  = untouched_by_index (for_range idx' e2).
Proof.
  revert idx' e1 e2.
  induction idx as [ | k idx IH]; intros [ | k' idx'] e1 e2 Hlen Heq;
    try discriminate.
  - simpl. rewrite Heq. reflexivity.
  - simpl.
    change (set_i k e1) with (set_i k (set_i 0 e1)). rewrite Heq.
    change (set_i k (set_i 0 e2)) with (set_i k e2).
    rewrite (loop_body_set_i k e2), (loop_body_set_i k' e2).
    destruct (loop_body e2) as [a | ex]; simpl; [ | reflexivity ].
    apply IH; [ injection Hlen; auto | reflexivity ].
Qed.

Lemma loop_body_same_inputs (k : nat) (e1 e2 : Env T) :
  same_inputs e1 e2 ->
  match loop_body (set_i k e1), loop_body (set_i k e2) with
  | Ok a1, Ok a2 => same_training a1 a2
  | Raise x1, Raise x2 => x1 = x2
  | _, _ => False
  end.
Proof.
  intros (Hw & Hb & Hx & Ht & Hlr & Hls).
  rewrite !loop_body_unfold. unfold loss_at. simpl.
  rewrite Hw, Hb, Hx, Ht, Hlr, Hls.
  destruct (pow2 (weight e2 * x e2 + bias e2 - target e2)) as [l | ex];
    simpl; [ | reflexivity ].
  unfold same_training, same_inputs. simpl. repeat split.
Qed.

Lemma for_range_same_inputs (idx : list nat) (e1 e2 : Env T) :
  same_inputs e1 e2 ->
  match for_range idx e1, for_range idx e2 with
  | Ok a1, Ok a2 => same_inputs a1 a2 /\ (idx <> [] -> same_training a1 a2)
  | Raise x1, Raise x2 => x1 = x2
  | _, _ => False
  end.
Proof.
  revert e1 e2. induction idx as [ | k idx IH]; intros e1 e2 Hin.
  - simpl. split; [ exact Hin | intros Hne; contradiction ].
  - simpl. pose proof (loop_body_same_inputs k e1 e2 Hin) as Hb.
    destruct (loop_body (set_i k e1)) as [a1 | x1],
             (loop_body (set_i k e2)) as [a2 | x2];
      simpl; try contradiction; [ | exact Hb ].
    specialize (IH a1 a2 (proj1 Hb)).
    destruct idx as [ | k' idx].
    + simpl. split; [ exact (proj1 Hb) | intros _; exact Hb ].
    + destruct (for_range (k' :: idx) a1) as [b1 | y1],
               (for_range (k' :: idx) a2) as [b2 | y2];
        try contradiction; [ | exact IH ].
      destruct IH as [Hi Ht]. split; [ exact Hi | ].
      intros _. apply Ht. discriminate.
Qed.

End Cells.

(** X1.  The walkthrough of cells 5, 7 and 9 is one iteration of the loop
    of cell 11 on the notebook's constants: it ends with the weight, the
    bias and the loss that [step] returns from the two draws, and its
    [new_loss] is the squared error at the updated parameters, the loss a
    second step would start from; it raises when either of the two
    squares does. *)

Theorem walkthrough_is_one_step :
  forall (T : Type) `{Scalar T} (w0 b0 : T) (e0 : Env T),
    walkthrough w0 b0 e0 =
    (r <- step w0 b0 lit_x lit_target lit_learning_rate ;;
     let '(w', b', l) := r in
     l' <- pow2 (w' * lit_x + b' - lit_target)%sc ;;
     let out := (w0 * lit_x + b0)%sc in
     let err := (out - lit_target)%sc in
     Ok (mkEnv w' b' lit_x lit_target out l err
               (lit_two * err * lit_x)%sc (lit_two * err)%sc
               lit_learning_rate (w' * lit_x + b')%sc l'
               (losses e0) (i e0))) /\
    (forall e, walkthrough w0 b0 e0 = Ok e -> loss_at e = Ok (new_loss e)).
Proof.
  intros T HT w0 b0 e0.
  assert (Heq : walkthrough w0 b0 e0 =
    (r <- step w0 b0 lit_x lit_target lit_learning_rate ;;
     let '(w', b', l) := r in
     l' <- pow2 (w' * lit_x + b' - lit_target)%sc ;;
     let out := (w0 * lit_x + b0)%sc in
     let err := (out - lit_target)%sc in
     Ok (mkEnv w' b' lit_x lit_target out l err
               (lit_two * err * lit_x)%sc (lit_two * err)%sc
               lit_learning_rate (w' * lit_x + b')%sc l'
               (losses e0) (i e0)))).
  { rewrite step_is_step_spec.
    unfold walkthrough, cell9, cell7, cell5, cell3, step_spec. simpl.
    destruct (pow2 (w0 * lit_x + b0 - lit_target)%sc) as [l | ex]; simpl;
      [ | reflexivity ].
    match goal with
    | |- context [pow2 ?a] => destruct (pow2 a) as [l' | ex]; reflexivity
    end. }
  split; [ exact Heq | ].
  intros e He. rewrite Heq in He.
  apply bind_ok_inv in He. destruct He as ([[w' b'] l] & _ & He).
  apply bind_ok_inv in He. destruct He as (l' & Hl' & He).
  injection He as <-. unfold loss_at. simpl. exact Hl'.
Qed.

(** X2.  Cell 11 starts over: it assigns the weight, the bias and the
    list of losses before it reads them, and reads from the earlier cells
    only x, target and learning_rate.  Two kernels that agree on those
    three give, from the same two draws, the same outcome: the same
    exception, or the same parameters, trace and intermediate values. *)

Theorem training_discards_the_walkthrough :
  forall (T : Type) `{Scalar T} (w b : T) (e1 e2 : Env T),
    x e1 = x e2 -> target e1 = target e2 ->
    learning_rate e1 = learning_rate e2 ->
    match cell11 w b e1, cell11 w b e2 with
    | Ok a1, Ok a2 => same_training a1 a2
    | Raise x1, Raise x2 => x1 = x2
    | _, _ => False
    end.
Proof.
  intros T HT w b e1 e2 Hx Ht Hlr.
  assert (Hin : same_inputs (loop_start w b e1) (loop_start w b e2))
    by (unfold same_inputs; simpl; repeat split; assumption).
  pose proof (for_range_same_inputs (range 100) _ _ Hin) as Hr.
  change (cell11 w b e1) with (for_range (range 100) (loop_start w b e1)).
  change (cell11 w b e2) with (for_range (range 100) (loop_start w b e2)).
  destruct (for_range (range 100) (loop_start w b e1)) as [a1 | x1],
           (for_range (range 100) (loop_start w b e2)) as [a2 | x2];
    try contradiction; [ | exact Hr ].
  apply Hr. discriminate.
Qed.

Lemma training_discards_the_walkthrough_witness :
  match cell11 0.6476885381006925%float 1.5230298564080254%float
               (set_learning_rate 0.01%float (quoted_state unassigned)),
        cell11 0.6476885381006925%float 1.5230298564080254%float
               (blank 5 7 3 6 0.01)%float with
  | Ok a1, Ok a2 => same_training a1 a2
  | Raise x1, Raise x2 => x1 = x2
  | _, _ => False
  end.
Proof.
  apply (training_discards_the_walkthrough float
           0.6476885381006925%float 1.5230298564080254%float
           (set_learning_rate 0.01%float (quoted_state unassigned))
           (blank 5 7 3 6 0.01)%float); reflexivity.
Defined.

(** X3.  Training can be resumed, and the loop variable is never read:
    [m + n] iterations are [m] iterations followed by [n] more from the
    state reached, and a run over any [n] indices ends, the value of [i]
    aside, as the run over the first [n]. *)

Theorem training_is_resumable :
  forall (T : Type) `{Scalar T} (m n : nat) (e : Env T),
    for_range (range (m + n)) e
    = (e1 <- for_range (range m) e ;; for_range (seq m n) e1) /\
    forall (idx : list nat) (e1 : Env T),
      length idx = n ->
      untouched_by_index (for_range idx e1)
      = untouched_by_index (for_range (range n) e1).
Proof.
  intros T HT m n e. split.
  - unfold range. rewrite seq_app. apply for_range_concat.
  - intros idx e1 Hlen. apply for_range_indices; [ | reflexivity ].
    unfold range. rewrite length_seq. exact Hlen.
Qed.

(** ** Training in exact arithmetic, on any sample *)

Section ExactTraining.

Local Open Scope R_scope.

Lemma sample_norm_pos (xv : R) : 0 < xv * xv + 1.
Proof. nra. Qed.

(** The run of [n] iterations in closed form: the error of the prediction
    is the first one times the [n]-th power of the contraction factor, the
    trace lists the squares of the errors met, and [weight - x * bias] is
    kept. *)

Lemma real_run_closed (n : nat) (e : Env R) :
  exists e',
    for_range (range n) e = Ok e' /\
    x e' = x e /\ target e' = target e /\
    learning_rate e' = learning_rate e /\
    residual e' = contraction (learning_rate e) (x e) ^ n * residual e /\
    weight e' - x e * bias e' = weight e - x e * bias e /\
    losses e' =
    losses e ++
    map (fun k => (contraction (learning_rate e) (x e) ^ 2) ^ k
                  * (residual e * residual e))
        (seq 0 n).
Proof.
  induction n as [ | n (e1 & Hrun & Hx & Ht & Hlr & Hres & Hinv & Hls)].
  - exists e. simpl. rewrite app_nil_r. repeat split; ring.
  - destruct (real_loop_body (set_i n e1))
      as (e2 & Hb & Hx2 & Ht2 & Hlr2 & _ & _ & Hres2 & Hinv2).
    destruct (loop_body_ok _ _ Hb) as (l & Hl & _ & Hls2 & _).
    rewrite real_loss_at in Hl. injection Hl as <-.
    simpl in Hx2, Ht2, Hlr2, Hinv2, Hls2.
    change (residual (set_i n e1)) with (residual e1) in Hres2, Hls2.
    simpl in Hres2.
    exists e2. rewrite for_range_succ, Hrun. cbn [bind].
    split; [ exact Hb | ].
    split; [ congruence | ]. split; [ congruence | ].
    split; [ congruence | ].
    split; [ rewrite Hres2, Hres, Hlr, Hx; simpl; ring | ].
    split; [ rewrite Hx in Hinv2; rewrite Hinv2; exact Hinv | ].
    rewrite Hls2, Hls, seq_S, map_app, <- app_assoc. cbn [map Nat.add].
    do 3 f_equal. rewrite Hres. rewrite <- pow_mult.
    replace (2 * n)%nat with (n + n)%nat by lia.
    rewrite pow_add. ring.
Qed.

Lemma contraction_bound (lr xv : R) :
  0 < lr < 1 / (xv * xv + 1) -> Rabs (contraction lr xv) < 1.
Proof.
  intros [Hlo Hhi]. pose proof (sample_norm_pos xv) as Hd.
  assert (Hprod : lr * (xv * xv + 1) < 1).
  { apply Rmult_lt_reg_r with (/ (xv * xv + 1));
      [ apply Rinv_0_lt_compat; exact Hd | ].
    rewrite Rmult_assoc, Rinv_r, Rmult_1_r by lra.
    unfold Rdiv in Hhi. lra. }
  assert (Hpos : 0 < lr * (xv * xv + 1)) by (apply Rmult_lt_0_compat; lra).
  unfold contraction. apply Rabs_def1; lra.
Qed.

(** The limit the parameters tend to, and why: it is on the solution
    line, and the parameters after [n] iterations are off it by the error
    still left, spread along the direction [(x, 1)]. *)

Lemma real_run_offsets (n : nat) (e : Env R) :
  exists e',
    for_range (range n) e = Ok e' /\
    residual e' = contraction (learning_rate e) (x e) ^ n * residual e /\
    weight e' * x e + bias e' - target e = residual e' /\
    (x e * x e + 1)
    * (weight e' - (weight e - x e * residual e / (x e * x e + 1)))
    = x e * residual e' /\
    (x e * x e + 1)
    * (bias e' - (bias e - residual e / (x e * x e + 1)))
    = residual e'.
Proof.
  destruct (real_run_closed n e)
    as (e' & Hrun & Hx & Ht & _ & Hres & Hinv & _).
  exists e'. split; [ exact Hrun | ]. split; [ exact Hres | ].
  pose proof (sample_norm_pos (x e)) as Hd.
  assert (Hpred : weight e' * x e + bias e' - target e = residual e')
    by (unfold residual; rewrite Hx, Ht; reflexivity).
  split; [ exact Hpred | ].
  set (rn := residual e') in *.
  assert (Hw : (x e * x e + 1) * weight e'
               = x e * rn + x e * target e + weight e - x e * bias e).
  { replace ((x e * x e + 1) * weight e')
      with (x e * (weight e' * x e + bias e' - target e)
            + (weight e' - x e * bias e') + x e * target e) by ring.
    rewrite Hpred, Hinv. ring. }
  assert (Hb : (x e * x e + 1) * bias e'
               = rn + target e - x e * weight e + x e * x e * bias e).
  { replace ((x e * x e + 1) * bias e')
      with ((weight e' * x e + bias e' - target e)
            - x e * (weight e' - x e * bias e') + target e) by ring.
    rewrite Hpred, Hinv. ring. }
  split.
  - replace ((x e * x e + 1)
             * (weight e' - (weight e - x e * residual e / (x e * x e + 1))))
      with ((x e * x e + 1) * weight e' - (x e * x e + 1) * weight e
            + x e * residual e) by (field; lra).
    rewrite Hw. unfold residual. ring.
  - replace ((x e * x e + 1)
             * (bias e' - (bias e - residual e / (x e * x e + 1))))
      with ((x e * x e + 1) * bias e' - (x e * x e + 1) * bias e
            + residual e) by (field; lra).
    rewrite Hb. unfold residual. ring.
Qed.

Lemma spread_bound (xv rn dl : R) :
  - dl < rn < dl ->
  - ((xv * xv + 1) * dl) < xv * rn < (xv * xv + 1) * dl.
Proof.
  intros [Hlo Hhi].
  assert (Hdl : 0 < dl) by lra.
  assert (Hx1 : xv < xv * xv + 1) by nra.
  assert (Hx2 : - xv < xv * xv + 1) by nra.
  destruct (Rle_lt_dec 0 xv) as [Hpos | Hneg].
  - assert (H1 : xv * rn <= xv * dl) by (apply Rmult_le_compat_l; lra).
    assert (H2 : xv * - dl <= xv * rn) by (apply Rmult_le_compat_l; lra).
    assert (H3 : xv * dl < (xv * xv + 1) * dl)
      by (apply Rmult_lt_compat_r; lra).
    lra.
  - assert (H1 : - xv * rn <= - xv * dl)
      by (apply Rmult_le_compat_l; lra).
    assert (H2 : - xv * - dl <= - xv * rn)
      by (apply Rmult_le_compat_l; lra).
    assert (H3 : - xv * dl < (xv * xv + 1) * dl)
      by (apply Rmult_lt_compat_r; lra).
    lra.
Qed.

End ExactTraining.

(** X4.  In exact arithmetic the state after any number [n] of iterations
    is known in closed form, for every sample, learning rate and start:
    the error of the prediction is the first error times the [n]-th power
    of [1 - 2 * learning_rate * (x^2 + 1)], the combination
    [weight - x * bias] is the one of the start, and the parameters have
    moved from the start along [(x, 1)] by the part of the error
    removed. *)

Theorem trained_parameters_in_closed_form :
  forall (e : Env R) (n : nat),
    exists e',
      for_range (range n) e = Ok e' /\
      let c := contraction (learning_rate e) (x e) in
      let d := (x e * x e + 1)%R in
      (weight e' * x e + bias e' - target e = c ^ n * residual e)%R /\
      (weight e' - x e * bias e' = weight e - x e * bias e)%R /\
      (weight e' = weight e - x e * residual e * (1 - c ^ n) / d)%R /\
      (bias e' = bias e - residual e * (1 - c ^ n) / d)%R.
Proof.
  intros e n.
  destruct (real_run_offsets n e) as (e' & Hrun & Hres & Hpred & Hw & Hb).
  destruct (real_run_closed n e) as (e'' & Hrun' & _ & _ & _ & _ & Hinv & _).
  rewrite Hrun in Hrun'. injection Hrun' as <-.
  exists e'. split; [ exact Hrun | ]. cbv zeta.
  pose proof (sample_norm_pos (x e)) as Hd.
  split; [ rewrite Hpred; exact Hres | ]. split; [ exact Hinv | ].
  rewrite Hres in Hw, Hb.
  split.
  - apply Rmult_eq_reg_l with (x e * x e + 1)%R; [ | lra ].
    apply Rminus_diag_uniq. 
    replace ((x e * x e + 1) * weight e' -
             (x e * x e + 1) *
             (weight e -
              x e * residual e *
              (1 - contraction (learning_rate e) (x e) ^ n) /
              (x e * x e + 1)))%R
      with ((x e * x e + 1)
            * (weight e' - (weight e - x e * residual e / (x e * x e + 1)))
            - x e * (contraction (learning_rate e) (x e) ^ n * residual e))%R
      by (field; lra).
    rewrite Hw. ring.
  - apply Rmult_eq_reg_l with (x e * x e + 1)%R; [ | lra ].
    apply Rminus_diag_uniq.
    replace ((x e * x e + 1) * bias e' -
             (x e * x e + 1) *
             (bias e -
              residual e * (1 - contraction (learning_rate e) (x e) ^ n) /
              (x e * x e + 1)))%R
      with ((x e * x e + 1)
            * (bias e' - (bias e - residual e / (x e * x e + 1)))
            - contraction (learning_rate e) (x e) ^ n * residual e)%R
      by (field; lra).
    rewrite Hb. ring.
Qed.

(** X5.  In exact arithmetic the trace is a geometric sequence, for every
    sample, learning rate and start: the [k]-th loss appended is the first
    loss times the [k]-th power of the square of the contraction factor
    (of 64/100 on the notebook's constants). *)

Theorem trace_is_geometric :
  forall (e : Env R) (n : nat),
    exists e',
      for_range (range n) e = Ok e' /\
      losses e' =
      losses e ++
      map (fun k => ((contraction (learning_rate e) (x e) ^ 2) ^ k
                     * (residual e * residual e))%R)
          (seq 0 n) /\
      (contraction lit_learning_rate lit_x ^ 2 = 64 / 100)%R.
Proof.
  intros e n.
  destruct (real_run_closed n e) as (e' & Hrun & _ & _ & _ & _ & _ & Hls).
  exists e'. split; [ exact Hrun | ]. split; [ exact Hls | ].
  rewrite contraction_reference. field.
Qed.

(** X6.  In exact arithmetic the learning rate alone decides whether a
    step helps, on every sample: the loss a second step computes is the
    loss of the first times the square of
    [1 - 2 * learning_rate * (x^2 + 1)].  It is no larger for a rate
    between 0 and [1 / (x^2 + 1)], strictly smaller strictly inside unless
    already zero, zero for the rate [1 / (2 * (x^2 + 1))], and strictly
    larger, unless zero, for a negative rate or a rate above
    [1 / (x^2 + 1)]. *)

Theorem learning_rate_decides_the_next_loss :
  forall w b xv t lr : R,
    exists w' b' l w'' b'' l' : R,
      step w b xv t lr = Ok (w', b', l) /\
      step w' b' xv t lr = Ok (w'', b'', l') /\
      (l' = contraction lr xv ^ 2 * l)%R /\
      ((0 <= lr <= 1 / (xv * xv + 1))%R -> (l' <= l)%R) /\
      ((0 < lr < 1 / (xv * xv + 1))%R -> l <> 0%R -> (l' < l)%R) /\
      (lr = (1 / (2 * (xv * xv + 1)))%R -> l' = 0%R) /\
      ((lr < 0 \/ 1 / (xv * xv + 1) < lr)%R -> l <> 0%R -> (l < l')%R).
Proof.
  intros w b xv t lr. unfold step, step_in.
  rewrite !loop_body_unfold. unfold loss_at. simpl.
  do 6 eexists.
  split; [ reflexivity | ]. split; [ reflexivity | ].
  pose proof (sample_norm_pos xv) as Hd.
  set (d := (xv * xv + 1)%R) in *.
  set (r := (w * xv + b - t)%R).
  assert (Hnext : ((w - lr * (2 * r * xv)) * xv + (b - lr * (2 * r)) - t
                   = contraction lr xv * r)%R)
    by (unfold contraction, r; ring).
  rewrite Hnext. fold d.
  assert (Hq : forall q : R, (q = lr * d)%R ->
                 contraction lr xv = (1 - 2 * q)%R)
    by (intros q ->; unfold contraction, d; ring).
  assert (Hlrd : (lr = lr * d / d)%R) by (field; lra).
  set (q := (lr * d)%R) in *.
  rewrite (Hq q eq_refl).
  assert (Hsq : (0 <= r * r)%R) by nra.
  split; [ ring | ].
  split.
  { intros [Hlo Hhi].
    assert (Hq0 : (0 <= q)%R) by (unfold q; nra).
    assert (Hq1 : (q <= 1)%R).
    { unfold q. apply Rmult_le_reg_r with (/ d)%R;
        [ apply Rinv_0_lt_compat; exact Hd | ].
      rewrite Rmult_assoc, Rinv_r, Rmult_1_r by lra.
      unfold Rdiv in Hhi. lra. }
    assert (Hc : ((1 - 2 * q) * (1 - 2 * q) <= 1)%R) by nra.
    nra. }
  split.
  { intros [Hlo Hhi] Hl.
    assert (Hq0 : (0 < q)%R) by (unfold q; nra).
    assert (Hq1 : (q < 1)%R).
    { unfold q. apply Rmult_lt_reg_r with (/ d)%R;
        [ apply Rinv_0_lt_compat; exact Hd | ].
      rewrite Rmult_assoc, Rinv_r, Rmult_1_r by lra.
      unfold Rdiv in Hhi. lra. }
    assert (Hc : ((1 - 2 * q) * (1 - 2 * q) < 1)%R) by nra.
    assert (Hpos : (0 < r * r)%R) by lra.
    nra. }
  split.
  { intros Hlr.
    assert (Hq2 : (q = 1 / 2)%R) by (unfold q; rewrite Hlr; field; lra).
    rewrite Hq2. field. }
  intros Hout Hl.
  assert (Hpos : (0 < r * r)%R) by lra.
  assert (Hc : (1 < (1 - 2 * q) * (1 - 2 * q))%R).
  { destruct Hout as [Hneg | Hbig].
    - assert (Hq0 : (q < 0)%R) by (unfold q; nra). nra.
    - assert (Hq1 : (1 < q)%R).
      { unfold q. apply Rmult_lt_reg_r with (/ d)%R;
          [ apply Rinv_0_lt_compat; exact Hd | ].
        rewrite Rmult_assoc, Rinv_r, Rmult_1_r by lra.
        unfold Rdiv in Hbig. lra. }
      nra. }
  nra.
Qed.

(** X7.  In exact arithmetic, on every sample and for every learning
    rate strictly between 0 and [1 / (x^2 + 1)], training converges to the
    point of the solution line [weight * x + bias = target] nearest to the
    parameters it started from. *)

Theorem training_converges_to_the_nearest_solution :
  forall e : Env R,
    (0 < learning_rate e < 1 / (x e * x e + 1))%R ->
    let winf := (weight e - x e * residual e / (x e * x e + 1))%R in
    let binf := (bias e - residual e / (x e * x e + 1))%R in
    (winf * x e + binf = target e)%R /\
    converges_to e winf binf /\
    forall w b : R,
      (w * x e + b = target e)%R ->
      ((winf - weight e) ^ 2 + (binf - bias e) ^ 2
       <= (w - weight e) ^ 2 + (b - bias e) ^ 2)%R.
Proof.
  intros e Hlr winf binf.
  pose proof (sample_norm_pos (x e)) as Hd.
  split; [ unfold winf, binf, residual; field; lra | ].
  split.
  - intros eps Heps.
    destruct (geometric_vanishes (contraction (learning_rate e) (x e))
                (residual e) (Rmin eps 1)) as [N HN];
      [ apply contraction_bound; exact Hlr | apply Rmin_pos; lra | ].
    exists N. intros n Hn. specialize (HN n Hn).
    destruct (real_run_offsets n e) as (en & Hrun & Hres & Hpred & Hw & Hb).
    rewrite <- Hres in HN.
    exists en, (residual en * residual en)%R.
    split; [ exact Hrun | ]. split; [ apply real_loss_at | ].
    rewrite Hpred. fold winf in Hw. fold binf in Hb.
    set (rn := residual en) in *.
    destruct (Rabs_def2 _ _ HN) as [Hhi Hlo].
    pose proof (Rmin_l eps 1) as Hl. pose proof (Rmin_r eps 1) as Hr.
    set (dl := Rmin eps 1) in *.
    split; [ split; nra | ].
    split; [ apply Rabs_def1; lra | ].
    set (dw := (weight en - winf)%R) in *.
    set (db := (bias en - binf)%R) in *.
    set (xv := x e) in *.
    pose proof (spread_bound xv rn dl (conj Hlo Hhi)) as [Hs1 Hs2].
    assert (Hdle : ((xv * xv + 1) * dl <= (xv * xv + 1) * eps)%R)
      by (apply Rmult_le_compat_l; lra).
    assert (Hrle : (- ((xv * xv + 1) * eps) < rn < (xv * xv + 1) * eps)%R)
      by nra.
    split; apply Rabs_def1.
    + apply Rmult_lt_reg_l with (xv * xv + 1)%R; [ lra | ].
      rewrite Hw. lra.
    + apply Rmult_lt_reg_l with (xv * xv + 1)%R; [ lra | ].
      replace ((xv * xv + 1) * - eps)%R
        with (- ((xv * xv + 1) * eps))%R by ring.
      rewrite Hw. lra.
    + apply Rmult_lt_reg_l with (xv * xv + 1)%R; [ lra | ].
      rewrite Hb. lra.
    + apply Rmult_lt_reg_l with (xv * xv + 1)%R; [ lra | ].
      replace ((xv * xv + 1) * - eps)%R
        with (- ((xv * xv + 1) * eps))%R by ring.
      rewrite Hb. lra.
  - intros w b Hline.
    assert (Hres : residual e
                   = (- (x e * (w - weight e) + (b - bias e)))%R)
      by (unfold residual; rewrite <- Hline; ring).
    assert (Hli : ((winf - weight e) ^ 2 + (binf - bias e) ^ 2
                   = residual e * residual e / (x e * x e + 1))%R)
      by (unfold winf, binf; field; lra).
    rewrite Hli, Hres.
    apply Rmult_le_reg_l with (x e * x e + 1)%R; [ exact Hd | ].
    replace ((x e * x e + 1)
             * (- (x e * (w - weight e) + (b - bias e))
                * - (x e * (w - weight e) + (b - bias e))
                / (x e * x e + 1)))%R
      with ((x e * (w - weight e) + (b - bias e))
            * (x e * (w - weight e) + (b - bias e)))%R by (field; lra).
    pose proof (Rle_0_sqr ((w - weight e) - x e * (b - bias e))) as Hsq.
    unfold Rsqr in Hsq. nra.
Qed.

Lemma training_converges_to_the_nearest_solution_witness :
  let e := (blank 0 0 3 6 (1 / 100))%R in
  let winf := (weight e - x e * residual e / (x e * x e + 1))%R in
  let binf := (bias e - residual e / (x e * x e + 1))%R in
  (winf * x e + binf = target e)%R /\
  converges_to e winf binf /\
  forall w b : R,
    (w * x e + b = target e)%R ->
    ((winf - weight e) ^ 2 + (binf - bias e) ^ 2
     <= (w - weight e) ^ 2 + (b - bias e) ^ 2)%R.
Proof.
  apply (training_converges_to_the_nearest_solution
           (blank 0 0 3 6 (1 / 100))%R).
  simpl. lra.
Defined.

(** X8.  What the notebook prints, in exact arithmetic and for any four
    draws.  After the walkthrough, the loss is the square of the distance
    that cell 5 prints, the new loss is 64/100 of the loss and the
    reduction that cell 9 prints is 36/100 of it.  After the 100
    iterations of cell 11, the final prediction is off the target by
    (8/10)^100 times the first error of the loop, and the final weight and
    bias are off 2 and 0 by the tenth, and minus three tenths, of
    [weight - 3 * bias - 2] at the start of the loop, up to that
    remainder: they are "close to 2.0" and "close to 0.0", as the last
    cell says they should be, only for such starts. *)

Theorem notebook_prints_in_exact_arithmetic :
  forall (w0 b0 w1 b1 : R) (e0 : Env R),
    exists e e' : Env R,
      walkthrough w0 b0 e0 = Ok e /\
      cell11 w1 b1 e = Ok e' /\
      (off_by e * off_by e = loss e)%R /\
      (new_loss e = 64 / 100 * loss e)%R /\
      (loss_reduced_by e = 36 / 100 * loss e)%R /\
      let rest := ((8 / 10) ^ 100 * (w1 * 3 + b1 - 6))%R in
      (final_prediction e' - 6 = rest)%R /\
      (weight e' - 2 = (w1 - 3 * b1 - 2) / 10 + 3 / 10 * rest)%R /\
      (bias e' - 0 = - 3 * (w1 - 3 * b1 - 2) / 10 + 1 / 10 * rest)%R.
Proof.
  intros w0 b0 w1 b1 e0.
  assert (Hwalk : exists e,
             walkthrough w0 b0 e0 = Ok e /\
             x e = 3%R /\ target e = 6%R /\
             learning_rate e = (1 / 100)%R /\
             (off_by e * off_by e = loss e)%R /\
             (new_loss e = 64 / 100 * loss e)%R /\
             (loss_reduced_by e = 36 / 100 * loss e)%R).
  { unfold walkthrough, cell9, cell7, cell5, cell3. simpl.
    eexists. split; [ reflexivity | ].
    unfold off_by, loss_reduced_by. simpl.
    repeat split; try field.
    rewrite <- Rabs_mult. apply Rabs_pos_eq. apply Rle_0_sqr. }
  destruct Hwalk as (e & Hw & Hx & Ht & Hlr & Hoff & Hnew & Hred).
  change (cell11 w1 b1 e) with (for_range (range 100) (loop_start w1 b1 e)).
  destruct (real_run_offsets 100 (loop_start w1 b1 e))
    as (e' & Hrun & Hres & Hpred & Hwt & Hbs).
  destruct (real_run_closed 100 (loop_start w1 b1 e))
    as (e'' & Hrun' & Hx' & _).
  rewrite Hrun in Hrun'. injection Hrun' as <-.
  exists e, e'. split; [ exact Hw | ]. split; [ exact Hrun | ].
  split; [ exact Hoff | ]. split; [ exact Hnew | ]. split; [ exact Hred | ].
  cbv zeta. unfold final_prediction.
  change (x (loop_start w1 b1 e)) with (x e) in *.
  change (target (loop_start w1 b1 e)) with (target e) in *.
  change (learning_rate (loop_start w1 b1 e)) with (learning_rate e) in *.
  change (weight (loop_start w1 b1 e)) with w1 in *.
  change (bias (loop_start w1 b1 e)) with b1 in *.
  assert (Hr0 : residual (loop_start w1 b1 e) = (w1 * 3 + b1 - 6)%R)
    by (unfold residual; simpl; rewrite Hx, Ht; reflexivity).
  rewrite Hx, Ht, Hlr, Hr0 in *.
  change (1 / 100)%R with (@lit_learning_rate R real_scalar) in Hres.
  change 3%R with (@lit_x R real_scalar) in Hres at 1.
  rewrite contraction_reference in Hres.
  cbn [mul add sub real_scalar].
  set (rest := ((8 / 10) ^ 100 * (w1 * 3 + b1 - 6))%R) in *.
  rewrite Hx'.
  split; [ rewrite Hpred; exact Hres | ].
  rewrite Hres in Hwt, Hbs.
  split; lra.
Qed.

(** ** Signs, NaN and infinities on binary64 *)

Section Binary64Signs.

Local Open Scope float_scope.

(** Rounding keeps the sign it is given. *)

Lemma binary_round_aux_sign (sx : bool) (mx ex : Z) (lx : location) :
  match binary_round_aux prec emax sx mx ex lx with
  | S754_zero s | S754_infinity s | S754_finite s _ _ => s = sx
  | S754_nan => True
  end.
Proof.
  unfold binary_round_aux.
  destruct (shr_fexp prec emax mx ex lx) as [mrs' e'].
  destruct (shr_fexp prec emax
              (round_nearest_even (shr_m mrs') (loc_of_shr_record mrs'))
              e' loc_Exact) as [mrs'' e''].
  destruct (shr_m mrs'') as [ | m | m]; try exact I; try reflexivity.
  destruct (e'' <=? emax - prec)%Z; reflexivity.
Qed.

(** Shifting and rounding a mantissa that is not negative gives one that
    is not negative, so that rounding a positive mantissa never gives
    NaN. *)

Lemma iter_pos_invariant {A : Type} (P : A -> Prop) (f : A -> A) :
  (forall a, P a -> P (f a)) ->
  forall (p : positive) (a : A), P a -> P (iter_pos f p a).
Proof.
  intros Hf. induction p as [p IH | p IH | ]; intros a Ha; simpl.
  - apply IH, IH, Hf, Ha.
  - apply IH, IH, Ha.
  - apply Hf, Ha.
Qed.

Lemma shr_1_nonneg (mrs : shr_record) :
  (0 <= shr_m mrs)%Z -> (0 <= shr_m (shr_1 mrs))%Z.
Proof.
  destruct mrs as [m r s]. simpl.
  destruct m as [ | [p | p | ] | [p | p | ]]; simpl; intros Hm; lia.
Qed.

Lemma shr_fexp_nonneg (m e : Z) (l : location) :
  (0 <= m)%Z -> (0 <= shr_m (fst (shr_fexp prec emax m e l)))%Z.
Proof.
  intros Hm. unfold shr_fexp, shr.
  assert (H0 : (0 <= shr_m (shr_record_of_loc m l))%Z)
    by (destruct l as [ | [ | | ]]; exact Hm).
  destruct (fexp prec emax (Zdigits2 m + e) - e)%Z as [ | p | p];
    cbn [fst]; try exact H0.
  apply (iter_pos_invariant (fun mrs => (0 <= shr_m mrs)%Z));
    [ exact shr_1_nonneg | exact H0 ].
Qed.

Lemma round_nearest_even_nonneg (m : Z) (l : location) :
  (0 <= m)%Z -> (0 <= round_nearest_even m l)%Z.
Proof.
  intros Hm. destruct l as [ | [ | | ]]; simpl; try lia.
  destruct (Z.even m); lia.
Qed.

Lemma binary_round_aux_not_nan (sx : bool) (m : positive) (ex : Z)
      (lx : location) :
  binary_round_aux prec emax sx (Zpos m) ex lx <> S754_nan.
Proof.
  unfold binary_round_aux.
  pose proof (shr_fexp_nonneg (Zpos m) ex lx ltac:(lia)) as H1.
  destruct (shr_fexp prec emax (Zpos m) ex lx) as [mrs' e'].
  cbn [fst] in H1.
  pose proof (shr_fexp_nonneg
                (round_nearest_even (shr_m mrs') (loc_of_shr_record mrs'))
                e' loc_Exact
                (round_nearest_even_nonneg _ _ H1)) as H2.
  destruct (shr_fexp prec emax
              (round_nearest_even (shr_m mrs') (loc_of_shr_record mrs'))
              e' loc_Exact) as [mrs'' e''].
  cbn [fst] in H2.
  destruct (shr_m mrs'') as [ | p | p]; try discriminate; [ | lia ].
  destruct (e'' <=? emax - prec)%Z; discriminate.
Qed.

(** A square is never below zero; it is NaN only for a NaN, and infinite
    for a finite float only by overflow. *)

Lemma square_not_negative (v : float) : not_negative (v * v).
Proof.
  unfold not_negative. rewrite ltb_zero_spec, mul_spec.
  unfold SF64mul, SFmul.
  destruct (Prim2SF v) as [s | s | | s m e]; try reflexivity.
  - destruct s; reflexivity.
  - pose proof (binary_round_aux_sign (xorb s s) (Zpos (m * m)) (e + e)
                  loc_Exact) as Hs.
    destruct (binary_round_aux prec emax (xorb s s) (Zpos (m * m)) (e + e)
                loc_Exact); try reflexivity;
      rewrite Hs; destruct s; reflexivity.
Qed.

Lemma square_nan (v : float) : is_nan (v * v) = true -> is_nan v = true.
Proof.
  rewrite !is_nan_spec, mul_spec. unfold SF64mul, SFmul.
  destruct (Prim2SF v) as [s | s | | s m e]; try discriminate;
    try reflexivity.
  pose proof (binary_round_aux_not_nan (xorb s s) (m * m) (e + e)
                loc_Exact) as Hn.
  destruct (binary_round_aux prec emax (xorb s s) (Zpos (m * m)) (e + e)
              loc_Exact); try discriminate.
  contradiction.
Qed.

(** NaN goes through every operation of the step. *)

Lemma nan_unique (f : float) : is_nan f = true -> f = nan.
Proof.
  rewrite is_nan_spec. intros Hn. apply Prim2SF_inj.
  change (Prim2SF nan) with S754_nan.
  destruct (Prim2SF f); try discriminate; reflexivity.
Qed.

Lemma nan_mul_l (a c : float) : is_nan a = true -> is_nan (a * c) = true.
Proof.
  rewrite !is_nan_spec, mul_spec. unfold SF64mul, SFmul.
  destruct (Prim2SF a); intros Hn; try discriminate; reflexivity.
Qed.

Lemma nan_mul_r (a c : float) : is_nan c = true -> is_nan (a * c) = true.
Proof.
  rewrite !is_nan_spec, mul_spec. unfold SF64mul, SFmul.
  destruct (Prim2SF a), (Prim2SF c); intros Hn; try discriminate;
    reflexivity.
Qed.

Lemma nan_add_l (a c : float) : is_nan a = true -> is_nan (a + c) = true.
Proof.
  rewrite !is_nan_spec, add_spec. unfold SF64add, SFadd.
  destruct (Prim2SF a); intros Hn; try discriminate; reflexivity.
Qed.

Lemma nan_add_r (a c : float) : is_nan c = true -> is_nan (a + c) = true.
Proof.
  rewrite !is_nan_spec, add_spec. unfold SF64add, SFadd.
  destruct (Prim2SF a), (Prim2SF c); intros Hn; try discriminate;
    reflexivity.
Qed.

Lemma nan_sub_l (a c : float) : is_nan a = true -> is_nan (a - c) = true.
Proof.
  rewrite !is_nan_spec, sub_spec. unfold SF64sub, SFsub.
  destruct (Prim2SF a); intros Hn; try discriminate; reflexivity.
Qed.

Lemma nan_sub_r (a c : float) : is_nan c = true -> is_nan (a - c) = true.
Proof.
  rewrite !is_nan_spec, sub_spec. unfold SF64sub, SFsub.
  destruct (Prim2SF a), (Prim2SF c); intros Hn; try discriminate;
    reflexivity.
Qed.

Lemma nan_error (e : Env float) :
  is_nan (weight e) || is_nan (bias e) || is_nan (x e) || is_nan (target e)
  = true ->
  is_nan (float_error e) = true.
Proof.
  intros Hn. unfold float_error.
  apply orb_true_iff in Hn. destruct Hn as [Hn | Ht];
    [ | apply nan_sub_r; exact Ht ].
  apply nan_sub_l.
  apply orb_true_iff in Hn. destruct Hn as [Hn | Hx];
    [ | apply nan_add_l, nan_mul_r; exact Hx ].
  apply orb_true_iff in Hn. destruct Hn as [Hw | Hb];
    [ apply nan_add_l, nan_mul_l; exact Hw | apply nan_add_r; exact Hb ].
Qed.

(** With a NaN error, the body returns NaN for the loss and for both
    parameters. *)

Lemma nan_body (e : Env float) :
  is_nan (float_error e) = true ->
  exists e',
    loop_body e = Ok e' /\
    weight e' = nan /\ bias e' = nan /\ loss e' = nan /\
    x e' = x e /\ target e' = target e /\
    learning_rate e' = learning_rate e /\
    losses e' = losses e ++ [nan].
Proof.
  intros Hn. rewrite float_loop_body. cbv zeta.
  assert (Hfin : finite (float_error e) = false).
  { revert Hn. rewrite is_nan_spec, finite_spec.
    destruct (Prim2SF (float_error e)); intros H; try discriminate;
      reflexivity. }
  rewrite Hfin. cbn [andb].
  eexists. split; [ reflexivity | ].
  cbn [weight bias loss x target learning_rate losses].
  assert (Hsq : float_error e * float_error e = nan)
    by (apply nan_unique, nan_mul_l; exact Hn).
  rewrite Hsq. repeat split.
  - apply nan_unique, nan_sub_r, nan_mul_r, nan_mul_l, nan_mul_r. exact Hn.
  - apply nan_unique, nan_sub_r, nan_mul_r, nan_mul_r. exact Hn.
Qed.

Lemma cell11_unfold (w b : float) (e : Env float) :
  cell11 w b e = for_range (range 100) (loop_start w b e).
Proof. reflexivity. Qed.

(** With a NaN among the four inputs, any number of iterations ends with
    NaN parameters, having appended NaN each time. *)

Lemma nan_run (e : Env float) (n : nat) :
  is_nan (float_error e) = true ->
  exists e',
    for_range (range (S n)) e = Ok e' /\
    weight e' = nan /\ bias e' = nan /\
    losses e' = losses e ++ repeat nan (S n).
Proof.
  intros Hn. induction n as [ | n (e1 & Hrun & Hw & Hb & Hls)].
  - destruct (nan_body (set_i 0 e) Hn)
      as (e' & Hb & Hw & Hbi & _ & _ & _ & _ & Hls).
    exists e'. rewrite for_range_succ. cbn [range seq for_range bind].
    repeat split; assumption.
  - assert (Hn1 : is_nan (float_error (set_i (S n) e1)) = true).
    { apply nan_error. cbn [weight set_i]. rewrite Hw. reflexivity. }
    destruct (nan_body (set_i (S n) e1) Hn1)
      as (e' & Hb' & Hw' & Hbi' & _ & _ & _ & _ & Hls').
    exists e'. rewrite for_range_succ, Hrun. cbn [bind].
    split; [ exact Hb' | ]. split; [ exact Hw' | ]. split; [ exact Hbi' | ].
    rewrite Hls'. cbn [losses set_i]. rewrite Hls, <- app_assoc.
    f_equal. rewrite <- repeat_cons. reflexivity.
Qed.

(** The distance cell 5 prints is never below zero. *)

Lemma abs_not_negative (v : float) : not_negative (abs v).
Proof.
  unfold not_negative. rewrite ltb_zero_spec, abs_spec.
  destruct (Prim2SF v); reflexivity.
Qed.

End Binary64Signs.

(** *** The result of [** 2], on any C library *)

Section AnyLibrarySigns.

Context {L : Libm}.
Local Open Scope float_scope.

Lemma float_pow2_ok (v l : float) :
  float_pow2 v = Ok l ->
  (is_infinity l = true -> is_infinity v = true) /\
  (sign_respecting L ->
   not_negative l /\ (is_nan l = true -> is_nan v = true)).
Proof.
  rewrite float_pow2_cases.
  destruct (is_nan v) eqn:Hn.
  { intros Hl. injection Hl as <-. split; [ tauto | ]. intros _.
    split; [ | tauto ]. unfold not_negative.
    rewrite ltb_zero_spec. rewrite is_nan_spec in Hn.
    destruct (Prim2SF v); (discriminate || reflexivity). }
  destruct (is_infinity v) eqn:Hi.
  { intros Hl. injection Hl as <-. split; [ reflexivity | ]. intros _.
    split; [ apply abs_not_negative | ].
    destruct (abs_classes v) as (Hna & _). rewrite Hna, Hn. tauto. }
  destruct (v =? 0).
  { intros Hl. injection Hl as <-. split; [ discriminate | ]. intros _.
    split; [ reflexivity | discriminate ]. }
  destruct (abs v =? 1).
  { intros Hl. injection Hl as <-. split; [ discriminate | ]. intros _.
    split; [ reflexivity | discriminate ]. }
  destruct (is_infinity (libm_pow2 (abs v))) eqn:Hp; [ discriminate | ].
  intros Hl. injection Hl as <-.
  split; [ rewrite Hp; discriminate | ]. intros HL.
  assert (Hf : finite (abs v) = true).
  { destruct (abs_classes v) as (Hna & Hia & _).
    rewrite Hn in Hna. rewrite Hi in Hia.
    rewrite is_nan_spec in Hna. rewrite is_infinity_spec in Hia.
    rewrite finite_spec.
    destruct (Prim2SF (abs v)); (reflexivity || discriminate). }
  destruct (HL (abs v) Hf) as [Hnn Hneg].
  split; [ exact Hneg | rewrite Hnn; discriminate ].
Qed.

End AnyLibrarySigns.

Lemma correctly_rounded_respects_signs : sign_respecting correctly_rounded.
Proof.
  intros v Hf. cbn [libm_pow2 correctly_rounded].
  split; [ | apply square_not_negative ].
  destruct (PrimFloat.is_nan (v * v)) eqn:Hn; [ | reflexivity ].
  pose proof (square_nan v Hn) as Hv.
  unfold finite in Hf. rewrite finite_spec in Hf. rewrite is_nan_spec in Hv.
  destruct (Prim2SF v); discriminate.
Qed.

Lemma glibc_at_three_bases_respects_signs : sign_respecting glibc_at_three_bases.
Proof.
  intros v Hf. cbn [libm_pow2 glibc_at_three_bases].
  destruct (PrimFloat.eqb v 2.759); [ split; reflexivity | ].
  destruct (PrimFloat.eqb v 4.536); [ split; reflexivity | ].
  destruct (PrimFloat.eqb v 7.150874296257825e-06); [ split; reflexivity | ].
  exact (correctly_rounded_respects_signs v Hf).
Qed.

Section AnyLibraryTrace.

Context {L : Libm}.

Lemma cell11_on_floats (w b : float) (e : Env float) :
  cell11 w b e = for_range (range 100) (loop_start w b e).
Proof. reflexivity. Qed.

Lemma loss_at_on_floats (e : Env float) :
  loss_at e = float_pow2 (float_error e).
Proof. reflexivity. Qed.

End AnyLibraryTrace.

(** X9.  On binary64 and any C library whose [pow] returns neither NaN nor
    a negative number on a finite base, no entry of the trace is below
    zero, whatever the draws: when cell 11 completes, each of its 100
    losses is what [** 2] returned for the prediction error of its
    iteration, is zero, positive or NaN, and is NaN, or infinite, only if
    that error was NaN, or infinite.  The witness runs on the draws -3.0
    and -2.8, where entry 66 is the one glibc returns and not the rounded
    square. *)

Theorem trace_is_never_negative :
  forall (L : Libm) (w b : float) (e e' : Env float),
    sign_respecting L ->
    cell11 w b e = Ok e' ->
    length (losses e') = 100%nat /\
    forall (k : nat) (l : float),
      nth_error (losses e') k = Some l ->
      not_negative l /\
      exists ek,
        for_range (range k) (loop_start w b e) = Ok ek /\
        loss_at ek = Ok l /\
        (PrimFloat.is_nan l = true ->
         PrimFloat.is_nan (float_error ek) = true) /\
        (PrimFloat.is_infinity l = true ->
         PrimFloat.is_infinity (float_error ek) = true).
Proof.
  intros L w b e e' HL Hrun.
  rewrite cell11_on_floats in Hrun.
  destruct (for_range_outcome 100 (loop_start w b e))
    as [(e'' & Hok & _ & _ & _ & tr & Hls & Hlen & Hnth)
       | (ex & Hstop & _)];
    [ | rewrite Hstop in Hrun; discriminate ].
  rewrite Hok in Hrun. injection Hrun as ->.
  change (losses (loop_start w b e)) with (@nil float) in Hls.
  rewrite app_nil_l in Hls.
  rewrite Hls. split; [ exact Hlen | ].
  intros k l Hk.
  assert (Hlt : (k < 100)%nat).
  { rewrite <- Hlen. apply nth_error_Some. rewrite Hk. discriminate. }
  destruct (Hnth k Hlt) as (ek & l' & Hek & Hl' & Hk').
  rewrite Hk in Hk'. injection Hk' as <-.
  pose proof Hl' as Hp. rewrite loss_at_on_floats in Hp.
  destruct (float_pow2_ok _ _ Hp) as (Hinf & Hsign).
  destruct (Hsign HL) as (Hnn & Hnan).
  split; [ exact Hnn | ].
  exists ek. repeat split; assumption.
Qed.

Section TraceOnGlibc.

#[local] Existing Instance glibc_at_three_bases | 0.

Lemma trace_is_never_negative_witness :
  exists e',
    cell11 (-3.0)%float (-2.8)%float
           (step_env unassigned nan nan 3 6 0.01)%float = Ok e' /\
    nth_error (losses e') 66 = Some 0x1.c1c9ca6a0a2c9p-35%float /\
    length (losses e') = 100%nat /\
    forall (k : nat) (l : float),
      nth_error (losses e') k = Some l ->
      not_negative l /\
      exists ek,
        for_range (range k)
          (loop_start (-3.0)%float (-2.8)%float
             (step_env unassigned nan nan 3 6 0.01)%float)
        = Ok ek /\
        loss_at ek = Ok l /\
        (PrimFloat.is_nan l = true ->
         PrimFloat.is_nan (float_error ek) = true) /\
        (PrimFloat.is_infinity l = true ->
         PrimFloat.is_infinity (float_error ek) = true).
Proof.
  eexists. split; [ vm_compute; reflexivity | ].
  split; [ vm_compute; reflexivity | ].
  apply (trace_is_never_negative glibc_at_three_bases
           (-3.0)%float (-2.8)%float
           (step_env unassigned nan nan 3 6 0.01)%float).
  - exact glibc_at_three_bases_respects_signs.
  - vm_compute. reflexivity.
Defined.

End TraceOnGlibc.

(** X10.  NaN is absorbing and silent.  With a NaN among weight, bias, x
    and target, the step raises nothing and returns NaN for both
    parameters and for the loss, whatever the learning rate; and one or
    more iterations of the loop end with NaN parameters, having appended
    NaN at each iteration. *)

Theorem nan_is_absorbing :
  forall (e : Env float) (n : nat),
    PrimFloat.is_nan (weight e) || PrimFloat.is_nan (bias e)
    || PrimFloat.is_nan (x e) || PrimFloat.is_nan (target e) = true ->
    step (weight e) (bias e) (x e) (target e) (learning_rate e)
    = Ok (nan, nan, nan) /\
    exists e',
      for_range (range (S n)) e = Ok e' /\
      weight e' = nan /\ bias e' = nan /\
      losses e' = losses e ++ repeat nan (S n).
Proof.
  intros e n Hn. pose proof (nan_error e Hn) as Herr.
  split; [ | apply nan_run; exact Herr ].
  destruct (nan_body e Herr) as (e' & Hb & Hw & Hbi & Hl & _).
  rewrite float_loop_body in Hb. cbv zeta in Hb.
  rewrite float_step. cbv zeta. fold (float_error e).
  destruct (finite (float_error e)
            && is_infinity (float_error e * float_error e)%float);
    [ discriminate | ].
  injection Hb as <-. cbn [weight bias loss] in Hw, Hbi, Hl.
  rewrite Hw, Hbi, Hl. reflexivity.
Qed.

Lemma nan_is_absorbing_witness :
  step nan (-0.138)%float 3%float 6%float 0.01%float = Ok (nan, nan, nan) /\
  exists e',
    for_range (range 3) (blank nan (-0.138) 3 6 0.01)%float = Ok e' /\
    weight e' = nan /\ bias e' = nan /\
    losses e' = [] ++ repeat nan 3.
Proof.
  apply (nan_is_absorbing (blank nan (-0.138) 3 6 0.01)%float 2).
  reflexivity.
Defined.

(** X11.  What cell 5 prints is consistent on binary64, on any C library:
    whenever the cell returns, the distance it prints,
    [abs(output - target)], is not below zero, and [** 2] of it is exactly
    the loss it prints, since [** 2] does not see the sign of its base;
    the loss is not below zero either on a library that respects signs.
    The product of the distance with itself is another number where the
    library's [pow] is not the rounded square: the witness, at weight
    0.488, prints the loss 20.575295999999994 against the product
    20.575295999999998. *)

Theorem printed_distance_squares_to_the_loss :
  forall (L : Libm) (e e' : Env float),
    cell5 e = Ok e' ->
    pow2 (off_by e') = Ok (loss e') /\
    not_negative (off_by e') /\
    (sign_respecting L -> not_negative (loss e')) /\
    output e' = (weight e * x e + bias e)%float.
Proof.
  intros L e e' H5. unfold cell5 in H5.
  apply bind_ok_inv in H5. destruct H5 as (l & Hl & He).
  injection He as <-.
  cbn [output target set_output set_loss] in Hl.
  change (pow2 ?v) with (float_pow2 v) in Hl |- *.
  unfold off_by. cbn [output target loss set_output set_loss absolute
                      float_absolute sub float_scalar].
  split; [ rewrite float_pow2_abs; exact Hl | ].
  split; [ apply abs_not_negative | ].
  split; [ | reflexivity ].
  intros HL. destruct (float_pow2_ok _ _ Hl) as (_ & Hsign).
  apply (Hsign HL).
Qed.

Section DistanceOnGlibc.

#[local] Existing Instance glibc_at_three_bases | 0.

Lemma printed_distance_witness :
  exists e',
    cell5 (cell3 0.488%float 0%float unassigned) = Ok e' /\
    loss e' = 20.575295999999994%float /\
    (off_by e' * off_by e')%float = 20.575295999999998%float /\
    pow2 (off_by e') = Ok (loss e') /\
    not_negative (off_by e') /\
    (sign_respecting glibc_at_three_bases -> not_negative (loss e')) /\
    output e' = (0.488 * 3 + 0)%float.
Proof.
  eexists. split; [ vm_compute; reflexivity | ].
  split; [ vm_compute; reflexivity | ].
  split; [ vm_compute; reflexivity | ].
  exact (printed_distance_squares_to_the_loss glibc_at_three_bases
           (cell3 0.488%float 0%float unassigned) _ eq_refl).
Defined.

End DistanceOnGlibc.

(** ** Overflow on binary64

    Rounding to nearest never takes a value of at most [2 ^ k] above
    [2 ^ k]; so sums, differences and products of bounded numbers are
    bounded, and a square that stays below [2 ^ 1024] does not raise. *)

Section RoundingBounds.

Local Open Scope Z_scope.

Lemma fexp_eq (z : Z) : fexp prec emax z = Z.max (z - 53) (-1074).
Proof. reflexivity. Qed.

(** The number of binary digits of a positive mantissa. *)

Lemma digits_spec (m : positive) :
  2 ^ (Zpos (digits2_pos m) - 1) <= Zpos m < 2 ^ Zpos (digits2_pos m).
Proof.
  induction m as [m IH | m IH | ]; cbn [digits2_pos].
  - rewrite Pos2Z.inj_succ.
    replace (Z.succ (Zpos (digits2_pos m)) - 1)
      with (Z.succ (Zpos (digits2_pos m) - 1)) by lia.
    rewrite !Z.pow_succ_r by lia. lia.
  - rewrite Pos2Z.inj_succ.
    replace (Z.succ (Zpos (digits2_pos m)) - 1)
      with (Z.succ (Zpos (digits2_pos m) - 1)) by lia.
    rewrite !Z.pow_succ_r by lia. lia.
  - simpl. lia.
Qed.

(** Shifting right divides the mantissa. *)

Lemma shr_1_div (mrs : shr_record) :
  0 <= shr_m mrs -> shr_m (shr_1 mrs) = shr_m mrs / 2.
Proof.
  destruct mrs as [m r s]. cbn [shr_m].
  destruct m as [ | p | p]; intros Hm; [ reflexivity | | lia ].
  destruct p as [p | p | ]; cbn [shr_1 shr_m].
  - rewrite Pos2Z.inj_xI. apply Z.div_unique with 1; lia.
  - rewrite Pos2Z.inj_xO. apply Z.div_unique with 0; lia.
  - reflexivity.
Qed.

Lemma pow_xI (p : positive) :
  2 ^ Zpos p~1 = 2 * (2 ^ Zpos p * 2 ^ Zpos p).
Proof.
  rewrite Pos2Z.inj_xI, Z.pow_add_r, Z.pow_1_r by lia.
  rewrite <- Z.pow_add_r by lia.
  replace (Zpos p + Zpos p) with (2 * Zpos p) by lia. lia.
Qed.

Lemma pow_xO (p : positive) : 2 ^ Zpos p~0 = 2 ^ Zpos p * 2 ^ Zpos p.
Proof.
  rewrite Pos2Z.inj_xO, <- Z.pow_add_r by lia. f_equal. lia.
Qed.

Lemma shr_iter_nonneg (p : positive) (mrs : shr_record) :
  0 <= shr_m mrs -> 0 <= shr_m (iter_pos shr_1 p mrs).
Proof.
  revert mrs. induction p as [p IH | p IH | ]; intros mrs Hm;
    cbn [iter_pos].
  - apply IH, IH, shr_1_nonneg, Hm.
  - apply IH, IH, Hm.
  - apply shr_1_nonneg, Hm.
Qed.

Lemma shr_iter_div (p : positive) (mrs : shr_record) :
  0 <= shr_m mrs ->
  shr_m (iter_pos shr_1 p mrs) = shr_m mrs / 2 ^ Zpos p.
Proof.
  revert mrs. induction p as [p IH | p IH | ]; intros mrs Hm;
    cbn [iter_pos].
  - rewrite IH by (apply shr_iter_nonneg, shr_1_nonneg, Hm).
    rewrite IH by (apply shr_1_nonneg, Hm).
    rewrite shr_1_div by exact Hm.
    rewrite !Z.div_div by lia.
    rewrite pow_xI. f_equal; lia.
  - rewrite IH by (apply shr_iter_nonneg, Hm).
    rewrite IH by exact Hm.
    rewrite !Z.div_div by lia.
    rewrite pow_xO. reflexivity.
  - rewrite shr_1_div by exact Hm. reflexivity.
Qed.

(** A shift that drops only zero bits leaves the location exact. *)

Lemma shr_1_exact (c : Z) :
  0 <= c ->
  shr_1 (Build_shr_record (c * 2) false false) = Build_shr_record c false false.
Proof.
  intros Hc. destruct c as [ | q | q]; [ reflexivity | | lia ].
  replace (Zpos q * 2) with (Zpos q~0) by lia. reflexivity.
Qed.

Lemma shr_iter_exact (p : positive) (c : Z) :
  0 <= c ->
  iter_pos shr_1 p (Build_shr_record (c * 2 ^ Zpos p) false false)
  = Build_shr_record c false false.
Proof.
  revert c. induction p as [p IH | p IH | ]; intros c Hc; cbn [iter_pos].
  - rewrite pow_xI.
    replace (c * (2 * (2 ^ Zpos p * 2 ^ Zpos p)))
      with (c * 2 ^ Zpos p * 2 ^ Zpos p * 2) by lia.
    rewrite shr_1_exact by (apply Z.mul_nonneg_nonneg; lia).
    rewrite IH by (apply Z.mul_nonneg_nonneg; lia).
    apply IH, Hc.
  - rewrite pow_xO.
    replace (c * (2 ^ Zpos p * 2 ^ Zpos p))
      with (c * 2 ^ Zpos p * 2 ^ Zpos p) by lia.
    rewrite IH by (apply Z.mul_nonneg_nonneg; lia).
    apply IH, Hc.
  - change (2 ^ 1) with 2. apply shr_1_exact, Hc.
Qed.

Lemma round_nearest_even_le (m : Z) (l : location) :
  m <= round_nearest_even m l <= m + 1.
Proof.
  destruct l as [ | [ | | ]]; cbn [round_nearest_even];
    try destruct (Z.even m); lia.
Qed.


Lemma Zdigits2_bound (m k : Z) :
  0 <= m -> m <= 2 ^ k -> Zdigits2 m <= Z.max (k + 1) 0.
Proof.
  intros Hm Hk. destruct m as [ | p | p]; cbn [Zdigits2]; [ lia | | lia ].
  destruct (Z.lt_ge_cases k 0) as [Hneg | Hpos].
  - rewrite Z.pow_neg_r in Hk by exact Hneg. lia.
  - pose proof (digits_spec p) as [Hlo _].
    assert (Hle : 2 ^ (Zpos (digits2_pos p) - 1) <= 2 ^ k) by lia.
    apply Z.pow_le_mono_r_iff in Hle; lia.
Qed.

Lemma pow_quot (q n a : Z) :
  0 <= q -> 0 < n -> q * 2 ^ n <= 2 ^ a -> q <= 2 ^ (a - n).
Proof.
  intros Hq Hn Hle.
  assert (Hpn : 0 < 2 ^ n) by (apply Z.pow_pos_nonneg; lia).
  destruct (Z.lt_ge_cases a n) as [Hlt | Hge].
  - rewrite (Z.pow_neg_r 2 (a - n)) by lia.
    destruct (Z.lt_ge_cases a 0) as [Hneg | Hpos].
    + rewrite (Z.pow_neg_r 2 a) in Hle by exact Hneg. nia.
    + assert (Hlt' : 2 ^ a < 2 ^ n) by (apply Z.pow_lt_mono_r; lia). nia.
  - replace a with (a - n + n) in Hle by lia.
    rewrite Z.pow_add_r in Hle by lia.
    apply Z.mul_le_mono_pos_r in Hle; assumption.
Qed.

Lemma pow_quot_strict (q n a : Z) :
  0 <= n <= a -> q * 2 ^ n < 2 ^ a -> q < 2 ^ (a - n).
Proof.
  intros Hn Hlt.
  assert (Hpn : 0 < 2 ^ n) by (apply Z.pow_pos_nonneg; lia).
  replace a with (a - n + n) in Hlt by lia.
  rewrite Z.pow_add_r in Hlt by lia.
  apply Z.mul_lt_mono_pos_r in Hlt; assumption.
Qed.

(** One alignment to the format's exponent, followed by rounding, keeps a
    mantissa of at most [2 ^ (k - e)] at most [2 ^ (k - e')]: the value
    stays at most [2 ^ k]. *)

Lemma shr_fexp_below (m e k : Z) :
  0 <= m -> m <= 2 ^ (k - e) -> -1074 <= k ->
  let r := shr_fexp prec emax m e loc_Exact in
  0 <= shr_m (fst r) /\
  round_nearest_even (shr_m (fst r)) (loc_of_shr_record (fst r))
  <= 2 ^ (k - snd r) /\
  snd r <= Z.max e (Z.max (k - 52) (-1074)).
Proof.
  intros Hm Hk Hlow. unfold shr_fexp. cbn [shr_record_of_loc].
  rewrite fexp_eq.
  pose proof (Zdigits2_bound m (k - e) Hm Hk) as Hd.
  set (d := Zdigits2 m) in *.
  unfold shr.
  destruct (Z.max (d + e - 53) (-1074) - e) as [ | p | p] eqn:Hn;
    cbn [fst snd shr_m loc_of_shr_record round_nearest_even].
  - repeat split; lia.
  - assert (Hp2 : 0 < 2 ^ Zpos p) by (apply Z.pow_pos_nonneg; lia).
    remember (m / 2 ^ Zpos p) as q eqn:Hq.
    assert (Hq0 : 0 <= q) by (subst q; apply Z.div_pos; lia).
    pose proof (Z.div_mod m (2 ^ Zpos p) ltac:(lia)) as Hdm.
    pose proof (Z.mod_pos_bound m (2 ^ Zpos p) Hp2) as Hmod.
    rewrite <- Hq in Hdm.
    destruct (Z.eq_dec (m mod 2 ^ Zpos p) 0) as [Hex | Hin].
    + assert (Hmq : m = q * 2 ^ Zpos p) by lia.
      rewrite Hmq, shr_iter_exact by exact Hq0.
      cbn [shr_m loc_of_shr_record round_nearest_even].
      repeat split; [ exact Hq0 | | lia ].
      replace (k - (e + Zpos p)) with (k - e - Zpos p) by lia.
      apply pow_quot; lia.
    + pose proof (round_nearest_even_le
                    (shr_m (iter_pos shr_1 p (Build_shr_record m false false)))
                    (loc_of_shr_record
                       (iter_pos shr_1 p (Build_shr_record m false false))))
        as Hr.
      rewrite shr_iter_div in * by exact Hm. cbn [shr_m] in *.
      rewrite <- Hq in *.
      assert (Hke : 0 <= k - e).
      { destruct (Z.lt_ge_cases (k - e) 0) as [Hneg | Hpos]; [ | exact Hpos ].
        rewrite Z.pow_neg_r in Hk by exact Hneg. lia. }
      repeat split; [ exact Hq0 | | lia ].
      replace (k - (e + Zpos p)) with (k - e - Zpos p) by lia.
      assert (Hlt : q < 2 ^ (k - e - Zpos p)) by (apply pow_quot_strict; lia).
      lia.
  - repeat split; lia.
Qed.


(** Rounding a value of at most [2 ^ k] gives a zero or a finite number of
    at most [2 ^ k], never an infinity, as long as [2 ^ k] is finite. *)

Lemma binary_round_aux_below (s : bool) (m e k : Z) :
  0 <= m -> m <= 2 ^ (k - e) -> e <= 971 -> -1074 <= k <= 1023 ->
  spec_within k (binary_round_aux prec emax s m e loc_Exact).
Proof.
  intros Hm Hk He Hrange. unfold binary_round_aux.
  pose proof (shr_fexp_below m e k Hm Hk ltac:(lia)) as S1.
  cbv zeta in S1.
  destruct (shr_fexp prec emax m e loc_Exact) as [mrs1 e1].
  cbn [fst snd] in S1. destruct S1 as (Hm1 & Hr1 & He1).
  pose proof (round_nearest_even_le (shr_m mrs1) (loc_of_shr_record mrs1))
    as Hrne.
  set (m1 := round_nearest_even (shr_m mrs1) (loc_of_shr_record mrs1)) in *.
  pose proof (shr_fexp_below m1 e1 k ltac:(lia) Hr1 ltac:(lia)) as S2.
  cbv zeta in S2.
  destruct (shr_fexp prec emax m1 e1 loc_Exact) as [mrs2 e2].
  cbn [fst snd] in S2. destruct S2 as (Hm2 & Hr2 & He2).
  pose proof (round_nearest_even_le (shr_m mrs2) (loc_of_shr_record mrs2))
    as Hrne2.
  destruct (shr_m mrs2) as [ | m2 | m2]; [ exact I | | lia ].
  change (emax - prec) with 971.
  destruct (Z.leb_spec e2 971) as [Hle | Hgt]; cbn [spec_within]; lia.
Qed.


Lemma spec_within_mono (k k' : Z) (f : spec_float) :
  k <= k' -> spec_within k f -> spec_within k' f.
Proof.
  intros Hk. destruct f as [s | s | | s m e]; cbn [spec_within]; try tauto.
  intros Hm. apply Z.le_trans with (1 := Hm).
  apply Z.pow_le_mono_r; lia.
Qed.

(** A finite number of the format has its exponent fixed by its number of
    digits; below [2 ^ k] the exponent is at most [k - 52]. *)

Lemma valid_exponent (s : bool) (m : positive) (e k : Z) :
  valid_binary (S754_finite s m e) = true ->
  spec_within k (S754_finite s m e) ->
  e <= 971 /\ e <= Z.max (k - 52) (-1074) /\ 0 <= k - e.
Proof.
  cbn [valid_binary spec_within]. unfold bounded, canonical_mantissa.
  rewrite fexp_eq. change (emax - prec) with 971.
  intros Hv Hk. apply andb_prop in Hv as [Hc He].
  apply Z.eqb_eq in Hc. apply Z.leb_le in He.
  pose proof (Zdigits2_bound (Zpos m) (k - e) ltac:(lia) Hk) as Hd.
  cbn [Zdigits2] in Hd.
  assert (Hke : 0 <= k - e).
  { destruct (Z.lt_ge_cases (k - e) 0) as [Hneg | Hpos]; [ | exact Hpos ].
    rewrite Z.pow_neg_r in Hk by exact Hneg. lia. }
  lia.
Qed.

Lemma pow_split (a b : Z) : 0 <= a -> 0 <= b -> 2 ^ (a + b) = 2 ^ a * 2 ^ b.
Proof. intros Ha Hb. apply Z.pow_add_r; assumption. Qed.

(** *** Products *)

Lemma SFmul_within (ka kb : Z) (x y : spec_float) :
  valid_binary x = true -> valid_binary y = true ->
  spec_within ka x -> spec_within kb y ->
  -1074 <= ka + kb <= 1023 ->
  spec_within (ka + kb) (SFmul prec emax x y).
Proof.
  intros Hvx Hvy Hx Hy Hk.
  destruct x as [sx | sx | | sx mx ex]; cbn [spec_within] in Hx;
    try contradiction;
    destruct y as [sy | sy | | sy my ey]; cbn [spec_within] in Hy;
    try contradiction; cbn [SFmul spec_within]; try exact I.
  destruct (valid_exponent sx mx ex ka Hvx Hx) as (Hx1 & Hx2 & Hx3).
  destruct (valid_exponent sy my ey kb Hvy Hy) as (Hy1 & Hy2 & Hy3).
  apply binary_round_aux_below; [ lia | | lia | lia ].
  replace (ka + kb - (ex + ey)) with ((ka - ex) + (kb - ey)) by lia.
  rewrite pow_split by assumption.
  rewrite Pos2Z.inj_mul.
  apply Z.mul_le_mono_nonneg; lia.
Qed.

(** *** Sums and differences *)

Lemma iter_xO (m d : positive) :
  Zpos (Pos.iter xO m d) = Zpos m * 2 ^ Zpos d.
Proof.
  induction d as [ | d IH] using Pos.peano_ind.
  - cbn [Pos.iter]. rewrite Pos2Z.inj_xO. change (2 ^ 1) with 2. lia.
  - rewrite Pos.iter_succ, Pos2Z.inj_xO, IH, Pos2Z.inj_succ.
    rewrite Z.pow_succ_r by lia. lia.
Qed.

Lemma shl_align_spec (m : positive) (e e' : Z) :
  snd (shl_align m e e') = Z.min e e' /\
  Zpos (fst (shl_align m e e')) = Zpos m * 2 ^ (e - Z.min e e').
Proof.
  unfold shl_align. destruct (e' - e) as [ | d | d] eqn:Hd; cbn [fst snd].
  - replace (Z.min e e') with e by lia.
    rewrite Z.sub_diag. change (2 ^ 0) with 1. lia.
  - replace (Z.min e e') with e by lia.
    rewrite Z.sub_diag. change (2 ^ 0) with 1. lia.
  - replace (Z.min e e') with e' by lia.
    replace (e - e') with (Zpos d) by lia.
    split; [ reflexivity | apply iter_xO ].
Qed.

Lemma scaled_within (m : positive) (e e' k : Z) :
  Zpos m <= 2 ^ (k - e) -> e' <= e -> Zpos m * 2 ^ (e - e') <= 2 ^ (k - e').
Proof.
  intros Hm He.
  assert (Hke : 0 <= k - e).
  { destruct (Z.lt_ge_cases (k - e) 0) as [Hneg | Hpos]; [ | exact Hpos ].
    rewrite Z.pow_neg_r in Hm by exact Hneg. lia. }
  replace (k - e') with ((k - e) + (e - e')) by lia.
  rewrite pow_split by lia.
  apply Z.mul_le_mono_nonneg_r; [ apply Z.pow_nonneg; lia | exact Hm ].
Qed.

Lemma binary_round_below (s : bool) (m : positive) (e k : Z) :
  Zpos m <= 2 ^ (k - e) -> e <= 971 -> -1074 <= k <= 1023 ->
  spec_within k (binary_round prec emax s m e).
Proof.
  intros Hm He Hk. unfold binary_round.
  destruct (shl_align_spec m e (fexp prec emax (Zpos (digits2_pos m) + e)))
    as [He' Hm'].
  destruct (shl_align m e (fexp prec emax (Zpos (digits2_pos m) + e)))
    as [mz ez].
  cbn [fst snd] in He', Hm'.
  rewrite <- He' in Hm'.
  apply binary_round_aux_below; [ lia | | lia | exact Hk ].
  rewrite Hm'. apply scaled_within; [ exact Hm | lia ].
Qed.

Lemma binary_normalize_below (z e k : Z) (sz : bool) :
  Z.abs z <= 2 ^ (k - e) -> e <= 971 -> -1074 <= k <= 1023 ->
  spec_within k (binary_normalize prec emax z e sz).
Proof.
  intros Hz He Hk. destruct z as [ | p | p]; cbn [binary_normalize].
  - exact I.
  - apply binary_round_below; assumption.
  - apply binary_round_below; assumption.
Qed.

Lemma aligned_sum_within (sx sy : bool) (mx my : positive) (ex ey ka kb k : Z)
      (op : Z -> Z -> Z) :
  (forall a b, Z.abs (op a b) <= Z.abs a + Z.abs b) ->
  Zpos mx <= 2 ^ (ka - ex) -> Zpos my <= 2 ^ (kb - ey) ->
  ex <= 971 -> ey <= 971 ->
  ka + 1 <= k -> kb + 1 <= k -> -1074 <= k <= 1023 ->
  spec_within k
    (binary_normalize prec emax
       (op (cond_Zopp sx (Zpos (fst (shl_align mx ex (Z.min ex ey)))))
           (cond_Zopp sy (Zpos (fst (shl_align my ey (Z.min ex ey))))))
       (Z.min ex ey) false).
Proof.
  intros Hop Hx Hy Hex Hey Hka Hkb Hk.
  destruct (shl_align_spec mx ex (Z.min ex ey)) as [_ Hmx].
  destruct (shl_align_spec my ey (Z.min ex ey)) as [_ Hmy].
  replace (Z.min ex (Z.min ex ey)) with (Z.min ex ey) in Hmx by lia.
  replace (Z.min ey (Z.min ex ey)) with (Z.min ex ey) in Hmy by lia.
  set (ez := Z.min ex ey) in *.
  pose proof (scaled_within mx ex ez ka Hx ltac:(lia)) as Hax.
  pose proof (scaled_within my ey ez kb Hy ltac:(lia)) as Hay.
  rewrite <- Hmx in Hax. rewrite <- Hmy in Hay.
  set (ax := Zpos (fst (shl_align mx ex ez))) in *.
  set (ay := Zpos (fst (shl_align my ey ez))) in *.
  assert (Hkx : 2 ^ (ka - ez) <= 2 ^ (k - 1 - ez))
    by (apply Z.pow_le_mono_r; lia).
  assert (Hky : 2 ^ (kb - ez) <= 2 ^ (k - 1 - ez))
    by (apply Z.pow_le_mono_r; lia).
  assert (Hk1 : 0 <= k - 1 - ez).
  { destruct (Z.lt_ge_cases (k - 1 - ez) 0) as [Hneg | Hpos];
      [ | exact Hpos ].
    rewrite (Z.pow_neg_r 2 (k - 1 - ez)) in Hkx by exact Hneg.
    subst ax. lia. }
  apply binary_normalize_below; [ | lia | exact Hk ].
  replace (k - ez) with (Z.succ (k - 1 - ez)) by lia.
  rewrite Z.pow_succ_r by exact Hk1.
  pose proof (Hop (cond_Zopp sx ax) (cond_Zopp sy ay)) as Habs.
  assert (Hcx : Z.abs (cond_Zopp sx ax) = ax)
    by (destruct sx; cbn [cond_Zopp]; subst ax; lia).
  assert (Hcy : Z.abs (cond_Zopp sy ay) = ay)
    by (destruct sy; cbn [cond_Zopp]; subst ay; lia).
  lia.
Qed.

Lemma SFadd_within (ka kb k : Z) (x y : spec_float) :
  valid_binary x = true -> valid_binary y = true ->
  spec_within ka x -> spec_within kb y ->
  ka + 1 <= k -> kb + 1 <= k -> -1074 <= k <= 1023 ->
  spec_within k (SFadd prec emax x y).
Proof.
  intros Hvx Hvy Hx Hy Hka Hkb Hk.
  destruct x as [sx | sx | | sx mx ex]; cbn [spec_within] in Hx;
    try contradiction;
    destruct y as [sy | sy | | sy my ey]; cbn [spec_within] in Hy;
    try contradiction; cbn [SFadd].
  - destruct sx, sy; exact I.
  - apply spec_within_mono with kb; [ lia | exact Hy ].
  - apply spec_within_mono with ka; [ lia | exact Hx ].
  - destruct (valid_exponent sx mx ex ka Hvx Hx) as (Hx1 & _ & _).
    destruct (valid_exponent sy my ey kb Hvy Hy) as (Hy1 & _ & _).
    apply aligned_sum_within with (ka := ka) (kb := kb) (op := Z.add);
      try assumption.
    intros a b. lia.
Qed.

Lemma SFsub_within (ka kb k : Z) (x y : spec_float) :
  valid_binary x = true -> valid_binary y = true ->
  spec_within ka x -> spec_within kb y ->
  ka + 1 <= k -> kb + 1 <= k -> -1074 <= k <= 1023 ->
  spec_within k (SFsub prec emax x y).
Proof.
  intros Hvx Hvy Hx Hy Hka Hkb Hk.
  destruct x as [sx | sx | | sx mx ex]; cbn [spec_within] in Hx;
    try contradiction;
    destruct y as [sy | sy | | sy my ey]; cbn [spec_within] in Hy;
    try contradiction; cbn [SFsub].
  - destruct sx, sy; exact I.
  - apply spec_within_mono with kb; [ lia | exact Hy ].
  - apply spec_within_mono with ka; [ lia | exact Hx ].
  - destruct (valid_exponent sx mx ex ka Hvx Hx) as (Hx1 & _ & _).
    destruct (valid_exponent sy my ey kb Hvy Hy) as (Hy1 & _ & _).
    apply aligned_sum_within with (ka := ka) (kb := kb) (op := Z.sub);
      try assumption.
    intros a b. lia.
Qed.

End RoundingBounds.

Section WalkthroughUnfold.

Context {T : Type} `{Scalar T}.
Local Open Scope scalar_scope.

Lemma walkthrough_unfold (w0 b0 : T) (e0 : Env T) :
  walkthrough w0 b0 e0 =
  (l <- pow2 (w0 * lit_x + b0 - lit_target) ;;
   let err := w0 * lit_x + b0 - lit_target in
   let w1 := w0 - lit_learning_rate * (lit_two * err * lit_x) in
   let b1 := b0 - lit_learning_rate * (lit_two * err) in
   l' <- pow2 (w1 * lit_x + b1 - lit_target) ;;
   Ok (mkEnv w1 b1 lit_x lit_target (w0 * lit_x + b0) l err
             (lit_two * err * lit_x) (lit_two * err) lit_learning_rate
             (w1 * lit_x + b1) l' (losses e0) (i e0))).
Proof.
  unfold walkthrough, cell9, cell7, cell5, cell3. simpl.
  destruct (pow2 (w0 * lit_x + b0 - lit_target)) as [l | ex];
    [ | reflexivity ].
  simpl.
  destruct (pow2 _) as [l' | ex]; reflexivity.
Qed.

End WalkthroughUnfold.

Section Binary64Bounds.

Local Open Scope float_scope.

Lemma within_finite (k : Z) (f : float) : within k f -> finite f = true.
Proof.
  unfold within. rewrite finite_spec.
  destruct (Prim2SF f); cbn [spec_within]; (reflexivity || contradiction).
Qed.

Lemma within_not_infinity (k : Z) (f : float) :
  within k f -> is_infinity f = false.
Proof.
  unfold within. rewrite is_infinity_spec.
  destruct (Prim2SF f); cbn [spec_within]; (reflexivity || contradiction).
Qed.

Lemma mul_within (ka kb : Z) (a b : float) :
  within ka a -> within kb b -> (-1074 <= ka + kb <= 1023)%Z ->
  within (ka + kb) (a * b).
Proof.
  unfold within. rewrite mul_spec.
  apply SFmul_within; apply Prim2SF_valid.
Qed.

Lemma add_within (ka kb k : Z) (a b : float) :
  within ka a -> within kb b ->
  (ka + 1 <= k)%Z -> (kb + 1 <= k)%Z -> (-1074 <= k <= 1023)%Z ->
  within k (a + b).
Proof.
  unfold within. rewrite add_spec.
  apply SFadd_within; apply Prim2SF_valid.
Qed.

Lemma sub_within (ka kb k : Z) (a b : float) :
  within ka a -> within kb b ->
  (ka + 1 <= k)%Z -> (kb + 1 <= k)%Z -> (-1074 <= k <= 1023)%Z ->
  within k (a - b).
Proof.
  unfold within. rewrite sub_spec.
  apply SFsub_within; apply Prim2SF_valid.
Qed.

(** A number at most [c] in absolute value is within every power of two
    that [c] is within. *)

Lemma SFleb_within (k : Z) (x c : spec_float) :
  valid_binary x = true -> valid_binary c = true ->
  spec_within k c -> SFleb (SFabs x) c = true -> spec_within k x.
Proof.
  intros Hvx Hvc Hc Hle.
  destruct c as [sc | sc | | sc mc ec]; cbn [spec_within] in Hc;
    try contradiction;
    destruct x as [sx | sx | | sx mx ex]; cbn [spec_within];
    try exact I; unfold SFleb in Hle; cbn [SFabs SFcompare] in Hle;
    try discriminate.
  destruct sc; [ discriminate | ].
  cbn [valid_binary] in Hvx, Hvc. unfold bounded, canonical_mantissa in *.
  rewrite fexp_eq in Hvx, Hvc.
  apply andb_prop in Hvx as [Hcx _]. apply andb_prop in Hvc as [Hcc _].
  apply Z.eqb_eq in Hcx. apply Z.eqb_eq in Hcc.
  pose proof (digits_spec mx) as [_ Hdx].
  pose proof (digits_spec mc) as [Hdc _].
  destruct (Z.compare_spec ex ec) as [Heq | Hlt | Hgt];
    [ | | discriminate ].
  - subst ec.
    apply Z.le_trans with (2 := Hc).
    rewrite Pos.compare_cont_spec in Hle. cbn [Pos.switch_Eq] in Hle.
    destruct (Pos.compare_spec mx mc) as [-> | Hm | Hm];
      [ lia | lia | discriminate ].
  - assert (Hdc53 : Zpos (digits2_pos mc) = 53%Z) by lia.
    rewrite Hdc53 in Hdc. change (53 - 1)%Z with 52%Z in Hdc.
    assert (Hk52 : (52 <= k - ec)%Z).
    { destruct (Z.lt_ge_cases (k - ec) 52) as [Hsmall | Hbig];
        [ | exact Hbig ].
      destruct (Z.lt_ge_cases (k - ec) 0) as [Hneg | Hpos].
      - rewrite Z.pow_neg_r in Hc by exact Hneg. lia.
      - assert (2 ^ (k - ec) < 2 ^ 52)%Z
          by (apply Z.pow_lt_mono_r; lia).
        lia. }
    assert (Hd53 : (Zpos (digits2_pos mx) <= 53)%Z) by lia.
    assert (H1 : (2 ^ Zpos (digits2_pos mx) <= 2 ^ 53)%Z)
      by (apply Z.pow_le_mono_r; lia).
    assert (H2 : (2 ^ 53 <= 2 ^ (k - ex))%Z)
      by (apply Z.pow_le_mono_r; lia).
    lia.
Qed.

Lemma at_most_within (k : Z) (c f : float) :
  within k c -> at_most c f -> within k f.
Proof.
  unfold within, at_most. rewrite leb_spec, abs_spec.
  apply SFleb_within; apply Prim2SF_valid.
Qed.


(** The notebook's constants. *)

Lemma within_literal (k : Z) (c : float) :
  match Prim2SF c with
  | S754_zero _ => true
  | S754_finite _ m e => (Zpos m <=? 2 ^ (k - e))%Z
  | _ => false
  end = true ->
  within k c.
Proof.
  unfold within. destruct (Prim2SF c); cbn [spec_within];
    try discriminate; try (intros _; exact I).
  apply Z.leb_le.
Qed.

Lemma within_two : within 1 2.
Proof. apply within_literal. vm_compute. reflexivity. Qed.

(** One iteration on parameters of at most [2 ^ k], a sample of at most
    4 and 8 and a learning rate of at most [2 ^ -6]: the loss is finite,
    and the new parameters are at most [2 ^ (k + 2)]. *)

Lemma body_within (e : Env float) (k : Z) :
  (0 <= k)%Z -> (2 * k + 8 <= 1023)%Z ->
  within k (weight e) -> within k (bias e) ->
  within 2 (x e) -> within 3 (target e) -> within (-6) (learning_rate e) ->
  exists e',
    loop_body e = Ok e' /\
    within (k + 2) (weight e') /\ within (k + 2) (bias e') /\
    x e' = x e /\ target e' = target e /\
    learning_rate e' = learning_rate e /\
    losses e' = losses e ++ [loss e'] /\
    within (2 * k + 8) (loss e').
Proof.
  intros Hk0 Hk Hw Hb Hx Ht Hlr.
  assert (Herr : within (k + 4) (float_error e)).
  { unfold float_error.
    apply sub_within with (ka := (k + 3)%Z) (kb := 3%Z); try lia;
      [ | exact Ht ].
    apply add_within with (ka := (k + 2)%Z) (kb := k); try lia;
      [ | exact Hb ].
    apply mul_within; [ exact Hw | exact Hx | lia ]. }
  assert (Hsq : within (2 * k + 8) (float_error e * float_error e)).
  { replace (2 * k + 8)%Z with ((k + 4) + (k + 4))%Z by lia.
    apply mul_within; [ exact Herr | exact Herr | lia ]. }
  assert (H2 : within (k + 5) (2 * float_error e)).
  { replace (k + 5)%Z with (1 + (k + 4))%Z by lia.
    apply mul_within; [ exact within_two | exact Herr | lia ]. }
  rewrite float_loop_body. cbv zeta.
  rewrite (within_not_infinity _ _ Hsq), andb_false_r.
  eexists. split; [ reflexivity | ].
  cbn [weight bias x target learning_rate losses loss].
  repeat split.
  - apply sub_within with (ka := k) (kb := (k + 1)%Z); try lia;
      [ exact Hw | ].
    replace (k + 1)%Z with (-6 + (k + 7))%Z by lia.
    apply mul_within; [ exact Hlr | | lia ].
    replace (k + 7)%Z with ((k + 5) + 2)%Z by lia.
    apply mul_within; [ exact H2 | exact Hx | lia ].
  - apply sub_within with (ka := k) (kb := (k - 1)%Z); try lia;
      [ exact Hb | ].
    replace (k - 1)%Z with (-6 + (k + 5))%Z by lia.
    apply mul_within; [ exact Hlr | exact H2 | lia ].
  - exact Hsq.
Qed.

(** [n] iterations, as long as the last loss stays within the format. *)

Lemma run_within (n : nat) (e : Env float) (k : Z) :
  (0 <= k)%Z -> (2 * (k + 2 * Z.of_nat n) + 4 <= 1023)%Z ->
  within k (weight e) -> within k (bias e) ->
  within 2 (x e) -> within 3 (target e) -> within (-6) (learning_rate e) ->
  exists e' trace,
    for_range (range n) e = Ok e' /\
    within (k + 2 * Z.of_nat n) (weight e') /\
    within (k + 2 * Z.of_nat n) (bias e') /\
    x e' = x e /\ target e' = target e /\
    learning_rate e' = learning_rate e /\
    losses e' = losses e ++ trace /\ length trace = n /\
    Forall (fun l => finite l = true) trace.
Proof.
  intros Hk0. induction n as [ | n IH]; intros Hk Hw Hb Hx Ht Hlr.
  - exists e, []. cbn [range seq for_range Z.of_nat].
    rewrite Z.mul_0_r, Z.add_0_r, app_nil_r.
    repeat split; try assumption. constructor.
  - destruct IH as (e1 & tr & Hrun & Hw1 & Hb1 & Hx1 & Ht1 & Hlr1 & Hls1
                    & Hlen & Hfin); try assumption; [ lia | ].
    destruct (body_within (set_i n e1) (k + 2 * Z.of_nat n))
      as (e2 & Hbody & Hw2 & Hb2 & Hx2 & Ht2 & Hlr2 & Hls2 & Hl2);
      cbn [weight bias x target learning_rate set_i];
      try (rewrite ?Hx1, ?Ht1, ?Hlr1; assumption); try lia.
    exists e2, (tr ++ [loss e2]).
    rewrite for_range_succ, Hrun. cbn [bind].
    cbn [x target learning_rate losses set_i] in Hx2, Ht2, Hlr2, Hls2.
    replace (k + 2 * Z.of_nat (S n))%Z with (k + 2 * Z.of_nat n + 2)%Z
      by lia.
    repeat split; try assumption; try congruence.
    + rewrite Hls2, Hls1, <- app_assoc. reflexivity.
    + rewrite length_app, Hlen. cbn [length]. lia.
    + apply Forall_app. split; [ exact Hfin | ].
      constructor; [ | constructor ].
      apply within_finite with (1 := Hl2).
Qed.


Lemma within_x : within 2 3.
Proof. apply within_literal. vm_compute. reflexivity. Qed.

Lemma within_target : within 3 6.
Proof. apply within_literal. vm_compute. reflexivity. Qed.

Lemma within_learning_rate : within (-6) 0.01.
Proof. apply within_literal. vm_compute. reflexivity. Qed.

Lemma within_four : within 2 4.
Proof. apply within_literal. vm_compute. reflexivity. Qed.

Lemma within_eight : within 3 8.
Proof. apply within_literal. vm_compute. reflexivity. Qed.

Lemma within_sixty_fourth : within (-6) 0x1p-6.
Proof. apply within_literal. vm_compute. reflexivity. Qed.

Lemma within_draw_bound : within 300 0x1p300.
Proof. apply within_literal. vm_compute. reflexivity. Qed.

Lemma cell11_within (w0 b0 : float) (e : Env float) :
  within 2 (x e) -> within 3 (target e) -> within (-6) (learning_rate e) ->
  within 300 w0 -> within 300 b0 ->
  exists e',
    cell11 w0 b0 e = Ok e' /\
    length (losses e') = 100%nat /\
    Forall (fun l => finite l = true) (losses e') /\
    within 500 (weight e') /\ within 500 (bias e').
Proof.
  intros Hx Ht Hlr Hw Hb. rewrite cell11_unfold.
  destruct (run_within 100 (loop_start w0 b0 e) 300)
    as (e' & tr & Hrun & Hw' & Hb' & _ & _ & _ & Hls & Hlen & Hfin);
    try assumption; try lia.
  exists e'. split; [ exact Hrun | ].
  change (losses (loop_start w0 b0 e)) with (@nil float) in Hls.
  rewrite app_nil_l in Hls. rewrite Hls.
  repeat split; assumption.
Qed.

Lemma walkthrough_within (w0 b0 : float) (e0 : Env float) :
  within 300 w0 -> within 300 b0 ->
  exists e9,
    walkthrough w0 b0 e0 = Ok e9 /\
    x e9 = 3 /\ target e9 = 6 /\ learning_rate e9 = 0.01 /\
    within 608 (loss e9) /\ within 612 (new_loss e9).
Proof.
  intros Hw Hb.
  destruct (body_within (mkEnv w0 b0 3 6 w0 w0 w0 w0 w0 0.01 w0 w0 [] 0) 300)
    as (e1 & Hbody & Hw1 & Hb1 & _ & _ & _ & _ & Hl1);
    cbn [weight bias x target learning_rate];
    try assumption; try lia;
    try apply within_x; try apply within_target;
    try apply within_learning_rate.
  rewrite float_loop_body in Hbody. cbv zeta in Hbody.
  unfold float_error in Hbody.
  cbn [weight bias x target learning_rate losses] in Hbody.
  set (err := w0 * 3 + b0 - 6) in *.
  assert (Hsq : is_infinity (err * err) = false).
  { destruct (finite err && is_infinity (err * err)) eqn:Hov;
      [ discriminate | ].
    injection Hbody as <-. cbn [loss] in Hl1.
    apply within_not_infinity with (1 := Hl1). }
  rewrite Hsq, andb_false_r in Hbody. injection Hbody as <-.
  cbn [weight bias loss] in Hw1, Hb1, Hl1.
  set (w1 := w0 - 0.01 * (2 * err * 3)) in *.
  set (b1 := b0 - 0.01 * (2 * err)) in *.
  assert (Herr1 : within 306 (w1 * 3 + b1 - 6)).
  { apply sub_within with (ka := 305%Z) (kb := 3%Z); try lia;
      [ | exact within_target ].
    apply add_within with (ka := 304%Z) (kb := 302%Z); try lia;
      [ | exact Hb1 ].
    change 304%Z with (302 + 2)%Z.
    apply mul_within; [ exact Hw1 | exact within_x | lia ]. }
  assert (Hsq1 : within 612 ((w1 * 3 + b1 - 6) * (w1 * 3 + b1 - 6))).
  { change 612%Z with (306 + 306)%Z.
    apply mul_within; [ exact Herr1 | exact Herr1 | lia ]. }
  rewrite walkthrough_unfold.
  cbn [mul add sub pow2 lit_two lit_x lit_target lit_learning_rate
       float_scalar].
  fold err. rewrite float_pow2_square, Hsq, andb_false_r. cbn [bind].
  cbv zeta. fold w1 b1.
  rewrite float_pow2_square, (within_not_infinity _ _ Hsq1), andb_false_r.
  cbn [bind]. eexists. split; [ reflexivity | ].
  cbn [x target learning_rate loss new_loss].
  repeat split; assumption.
Qed.

End Binary64Bounds.

(** X12.  Cell 11 never raises on parameters of ordinary size: with a
    sample of at most 4 and 8 in absolute value, a learning rate of at most
    [2 ^ -6] and two draws of at most [2 ^ 300], the hundred iterations all
    run, every loss appended is finite, and so are the trained parameters.
    (The draws of [randn] are a few units at most.) *)

Theorem training_never_overflows_on_bounded_draws :
  forall (w0 b0 : float) (e : Env float),
    at_most 4 (x e) -> at_most 8 (target e) ->
    at_most 0x1p-6 (learning_rate e) ->
    at_most 0x1p300 w0 -> at_most 0x1p300 b0 ->
    exists e',
      cell11 w0 b0 e = Ok e' /\
      length (losses e') = 100%nat /\
      Forall (fun l => finite l = true) (losses e') /\
      finite (weight e') = true /\ finite (bias e') = true.
Proof.
  intros w0 b0 e Hx Ht Hlr Hw Hb.
  destruct (cell11_within w0 b0 e) as (e' & Hrun & Hlen & Hfin & Hw' & Hb').
  - exact (at_most_within _ _ _ within_four Hx).
  - exact (at_most_within _ _ _ within_eight Ht).
  - exact (at_most_within _ _ _ within_sixty_fourth Hlr).
  - exact (at_most_within _ _ _ within_draw_bound Hw).
  - exact (at_most_within _ _ _ within_draw_bound Hb).
  - exists e'. repeat split; try assumption.
    + exact (within_finite _ _ Hw').
    + exact (within_finite _ _ Hb').
Qed.

Lemma training_never_overflows_witness :
  exists e',
    cell11 (-1e90)%float 1e90%float
           (step_env unassigned nan nan 3 6 0.01)%float = Ok e' /\
    length (losses e') = 100%nat /\
    Forall (fun l => finite l = true) (losses e') /\
    finite (weight e') = true /\ finite (bias e') = true.
Proof.
  apply (training_never_overflows_on_bounded_draws
           (-1e90)%float 1e90%float
           (step_env unassigned nan nan 3 6 0.01)%float);
    reflexivity.
Defined.

(** X13.  The whole notebook runs to its end on any generator and seed
    whose first four draws are at most [2 ^ 300] in absolute value: neither
    the walkthrough of cells 5 to 9 nor the loop of cell 11 raises, four
    samples are drawn, and the trace and the trained parameters are
    finite. *)

Theorem notebook_completes_on_bounded_draws :
  forall (G : Generator float) (s : Z) (e0 : Env float),
    at_most 0x1p300 (fst (fst (initial_parameters G s))) ->
    at_most 0x1p300 (snd (fst (initial_parameters G s))) ->
    at_most 0x1p300 (fst (snd (initial_parameters G s))) ->
    at_most 0x1p300 (snd (snd (initial_parameters G s))) ->
    exists e',
      notebook_from G s e0 = Ok (e', after_four_draws G s) /\
      length (losses e') = 100%nat /\
      Forall (fun l => finite l = true) (losses e') /\
      finite (weight e') = true /\ finite (bias e') = true.
Proof.
  intros G s e0.
  unfold notebook_from, initial_parameters, after_four_draws.
  destruct (randn G (seed G s)) as [w0 g1]. cbn [fst snd].
  destruct (randn G g1) as [b0 g2]. cbn [fst snd].
  destruct (randn G g2) as [w1 g3]. cbn [fst snd].
  destruct (randn G g3) as [b1 g4]. cbn [fst snd].
  intros Hw0 Hb0 Hw1 Hb1.
  destruct (walkthrough_within w0 b0 e0)
    as (e9 & Hwalk & Hx & Ht & Hlr & _ & _).
  - exact (at_most_within _ _ _ within_draw_bound Hw0).
  - exact (at_most_within _ _ _ within_draw_bound Hb0).
  - destruct (cell11_within w1 b1 e9)
      as (e' & Hrun & Hlen & Hfin & Hw' & Hb').
    + rewrite Hx. exact within_x.
    + rewrite Ht. exact within_target.
    + rewrite Hlr. exact within_learning_rate.
    + exact (at_most_within _ _ _ within_draw_bound Hw1).
    + exact (at_most_within _ _ _ within_draw_bound Hb1).
    + exists e'. rewrite Hwalk. cbn [bind]. rewrite Hrun. cbn [bind].
      split; [ reflexivity | ].
      repeat split; try assumption.
      * exact (within_finite _ _ Hw').
      * exact (within_finite _ _ Hb').
Qed.

Lemma notebook_completes_witness :
  exists e',
    notebook_from numpy_seed_42 42 unassigned
    = Ok (e', after_four_draws numpy_seed_42 42) /\
    length (losses e') = 100%nat /\
    Forall (fun l => finite l = true) (losses e') /\
    finite (weight e') = true /\ finite (bias e') = true.
Proof.
  apply (notebook_completes_on_bounded_draws numpy_seed_42 42 unassigned);
    reflexivity.
Defined.

(** X14.  The notebook reads nothing of the kernel state it is run in:
    every name is assigned before it is read, and cell 11 empties the
    list of losses, so running all cells in a kernel that has run
    anything before gives the same result, exception or final state, as
    in a fresh one.  The step likewise depends on its five inputs only,
    and a run that returns has drawn exactly four samples. *)

Theorem notebook_ignores_the_kernel_state :
  forall (T : Type) `{Scalar T} (G : Generator T) (s : Z) (e1 e2 : Env T),
    notebook_from G s e1 = notebook_from G s e2 /\
    (forall w b xv t lr : T,
        step_in e1 w b xv t lr = step_in e2 w b xv t lr) /\
    (forall (e' : Env T) (g : rng_state G),
        notebook_from G s e1 = Ok (e', g) -> g = after_four_draws G s).
Proof.
  intros T HT G s e1 e2.
  split; [ apply notebook_from_prior | ].
  split; [ intros; apply step_in_prior | ].
  intros e' g Hn. apply (notebook_from_ok _ _ _ _ _ Hn).
Qed.
